(** * Google-map-extractor: discovery and extraction, verified

    A shallow embedding of [src/index.js]: the in-page scroll loop and the
    harvesting of place links ([collectUrls]), the heuristic field scan
    ([extractDetails]) and the retention test of the driver ([run]).

    JavaScript strings are sequences of UTF-16 code units, so a string is a
    list of code units here; the DOM is a tree of elements carrying the
    attributes and properties the program reads; the browser, whose
    behaviour between two reads is not under the program's control, is a
    state type with transition functions the theorems quantify over. *)

From Stdlib Require Import Ascii String.
From Stdlib Require Import List ZArith NArith Bool Arith Lia.
Import ListNotations.

Set Implicit Arguments.

(** ** JavaScript strings *)

Definition jschar := N.
Definition jstring := list jschar.

(** An ASCII literal as a JavaScript string. *)
Definition str (s : string) : jstring :=
  List.map N_of_ascii (list_ascii_of_string s).

Fixpoint jstring_eqb (a b : jstring) : bool :=
  match a, b with
  | [], [] => true
  | x :: a', y :: b' => N.eqb x y && jstring_eqb a' b'
  | _, _ => false
  end.

(** The class [\s] of a regular expression without the [u] flag, which is
    also the set [String.prototype.trim] strips: WhiteSpace and
    LineTerminator of ECMAScript. *)
Definition is_space (c : jschar) : bool :=
  (N.leb 9 c && N.leb c 13) || N.eqb c 32 || N.eqb c 160 || N.eqb c 5760
  || (N.leb 8192 c && N.leb c 8202) || N.eqb c 8232 || N.eqb c 8233
  || N.eqb c 8239 || N.eqb c 8287 || N.eqb c 12288 || N.eqb c 65279.

(** The class [[\r\n]]. *)
Definition is_crlf (c : jschar) : bool := N.eqb c 13 || N.eqb c 10.

(** The class [\d]. *)
Definition is_digit (c : jschar) : bool := N.leb 48 c && N.leb c 57.

(** The class [[0-9,]]. *)
Definition is_digit_or_comma (c : jschar) : bool := is_digit c || N.eqb c 44.

(** The class [[\d\+\-\(\)\s]]. *)
Definition is_phone_char (c : jschar) : bool :=
  is_digit c || N.eqb c 43 || N.eqb c 45 || N.eqb c 40 || N.eqb c 41
  || is_space c.

Fixpoint drop_while (p : jschar -> bool) (s : jstring) : jstring :=
  match s with
  | [] => []
  | c :: s' => if p c then drop_while p s' else s
  end.

Fixpoint take_while (p : jschar -> bool) (s : jstring) : jstring :=
  match s with
  | [] => []
  | c :: s' => if p c then c :: take_while p s' else []
  end.

(** [s.trim()] *)
Definition trim (s : jstring) : jstring :=
  rev (drop_while is_space (rev (drop_while is_space s))).

(** [s.replace(/[cls]+/g, rep)]: every maximal run of characters of the
    class is replaced by [rep]; [in_run] tells that the previous character
    belonged to a run already replaced. *)
Fixpoint replace_runs_from (cls : jschar -> bool) (rep : jstring)
    (in_run : bool) (s : jstring) : jstring :=
  match s with
  | [] => []
  | c :: s' =>
      if cls c
      then (if in_run then [] else rep) ++ replace_runs_from cls rep true s'
      else c :: replace_runs_from cls rep false s'
  end.

Definition replace_runs (cls : jschar -> bool) (rep s : jstring) : jstring :=
  replace_runs_from cls rep false s.

(** [s.replace(/,/g, '')] *)
Definition remove_commas (s : jstring) : jstring :=
  filter (fun c => negb (N.eqb c 44)) s.

(** [s.split(' ')[0]] *)
Definition first_token (s : jstring) : jstring :=
  take_while (fun c => negb (N.eqb c 32)) s.

(** [s.match(/([cls]+)/)]: the leftmost maximal run, [None] for [null]. *)
Definition first_run (cls : jschar -> bool) (s : jstring) : option jstring :=
  match take_while cls (drop_while (fun c => negb (cls c)) s) with
  | [] => None
  | r => Some r
  end.

(** [s.match(/[cls]{n,}/)] is not [null]: tried at every start index. *)
Fixpoint has_run (cls : jschar -> bool) (n : nat) (s : jstring) : bool :=
  Nat.leb n (length (take_while cls s))
  || match s with
     | [] => false
     | _ :: s' => has_run cls n s'
     end.

Fixpoint startsWith (s prefix : jstring) : bool :=
  match prefix, s with
  | [], _ => true
  | p :: prefix', c :: s' => N.eqb p c && startsWith s' prefix'
  | _ :: _, [] => false
  end.

Fixpoint includes (s sub : jstring) : bool :=
  startsWith s sub
  || match s with
     | [] => false
     | _ :: s' => includes s' sub
     end.

(** Canonicalisation of a case-insensitive regular expression without the
    [u] flag, on the ASCII letters the patterns of the program are made of:
    a code unit of 128 or more never canonicalises to an ASCII letter. *)
Definition upcase (c : jschar) : jschar :=
  if N.leb 97 c && N.leb c 122 then N.sub c 32 else c.

(** The rest of [s] after a case-insensitive match of [word] at its start. *)
Fixpoint strip_word_ci (word s : jstring) : option jstring :=
  match word, s with
  | [], _ => Some s
  | p :: word', c :: s' =>
      if N.eqb (upcase p) (upcase c) then strip_word_ci word' s' else None
  | _ :: _, [] => None
  end.

(** [s.replace(/^word:?\s*/i, '')] *)
Definition strip_label (word s : jstring) : jstring :=
  match strip_word_ci word s with
  | None => s
  | Some rest =>
      let rest' := match rest with
                   | c :: r => if N.eqb c 58 then r else rest
                   | [] => rest
                   end in
      drop_while is_space rest'
  end.

(** [cleanText] of [extractDetails]. *)
Definition cleanText (s : jstring) : jstring :=
  match s with
  | [] => []
  | _ => trim (replace_runs is_space (str " ")
                 (replace_runs is_crlf (str " ") s))
  end.

(** [removeLabel(str, /^word:?\s*/i)] of [extractDetails]. *)
Definition removeLabel (s word : jstring) : jstring :=
  trim (strip_label word s).

(** [a || b] on strings. *)
Definition or_else (a b : jstring) : jstring :=
  match a with
  | [] => b
  | _ => a
  end.

(** ** The document *)

(** An HTML element as the program observes it: [tagName] is the DOM
    property (upper case for HTML elements), [attributes] what
    [getAttribute] reads, [innerText] the rendered text, [href] the resolved
    [href] property ([el.href || ''], the empty string where the element
    has none). *)
#[warning="-register-all"]
Inductive element : Type :=
  Element {
    tagName : string;
    attributes : list (string * jstring);
    innerText : jstring;
    href : jstring;
    children : list element
  }.

(** [el.getAttribute(name)], [None] for [null]. *)
Fixpoint lookup_attribute (name : string) (l : list (string * jstring))
  : option jstring :=
  match l with
  | [] => None
  | (k, v) :: l' => if String.eqb k name then Some v else lookup_attribute name l'
  end.

Definition getAttribute (el : element) (name : string) : option jstring :=
  lookup_attribute name (attributes el).

(** [el.getAttribute(name) || ''] *)
Definition attribute_or_empty (el : element) (name : string) : jstring :=
  match getAttribute el name with
  | Some v => v
  | None => []
  end.

(** The attribute selectors the program uses. *)
Inductive attr_test : Type :=
  | AttrPresent (name : string)
  | AttrIs (name : string) (v : jstring)
  | AttrBegins (name : string) (v : jstring)
  | AttrContains (name : string) (v : jstring).

(** A compound selector: a type selector and attribute selectors. The
    type selector is kept in the upper case of [tagName], which it matches
    on the HTML elements of an HTML document whatever its own case. *)
Record compound : Type :=
  Compound { sel_tag : string; sel_attrs : list attr_test }.

(** A complex selector is a chain of compounds joined by the descendant
    combinator, outermost first; a selector is a comma-separated list. *)
Definition complex := list compound.
Definition selector := list complex.

Definition attr_holds (el : element) (t : attr_test) : bool :=
  match t with
  | AttrPresent n =>
      match getAttribute el n with Some _ => true | None => false end
  | AttrIs n v =>
      match getAttribute el n with
      | Some a => jstring_eqb a v
      | None => false
      end
  | AttrBegins n v =>
      match getAttribute el n, v with
      | Some a, _ :: _ => startsWith a v
      | _, _ => false
      end
  | AttrContains n v =>
      match getAttribute el n, v with
      | Some a, _ :: _ => includes a v
      | _, _ => false
      end
  end.

Definition matches_compound (c : compound) (el : element) : bool :=
  String.eqb (sel_tag c) (tagName el) && forallb (attr_holds el) (sel_attrs c).

(** The ancestors of an element, nearest first, against the compounds left
    of the subject, innermost first. *)
Fixpoint matches_ancestors (ancestors : list element) (cs : list compound)
  : bool :=
  match cs with
  | [] => true
  | c :: cs' =>
      match ancestors with
      | [] => false
      | a :: ancestors' =>
          if matches_compound c a
          then matches_ancestors ancestors' cs'
          else matches_ancestors ancestors' cs
      end
  end.

Definition matches_complex (ancestors : list element) (el : element)
    (ch : complex) : bool :=
  match rev ch with
  | [] => false
  | subject :: outer =>
      matches_compound subject el && matches_ancestors ancestors outer
  end.

Definition matches (sel : selector) (ancestors : list element) (el : element)
  : bool :=
  existsb (matches_complex ancestors el) sel.

(** The elements of a tree in document order, each with its ancestors. *)
Fixpoint walk (ancestors : list element) (el : element)
  : list (list element * element) :=
  match el with
  | Element _ _ _ _ cs =>
      (ancestors, el) :: flat_map (walk (el :: ancestors)) cs
  end.

(** [document.querySelectorAll(sel)], the document given by its root. *)
Definition querySelectorAll (document : element) (sel : selector)
  : list element :=
  List.map snd
    (filter (fun p => matches sel (fst p) (snd p)) (walk [] document)).

(** [document.querySelector(sel)] *)
Definition querySelector (document : element) (sel : selector)
  : option element :=
  hd_error (querySelectorAll document sel).

Definition main_region : compound :=
  Compound "DIV" [AttrIs "role" (str "main")].

(** ['h1'] *)
Definition sel_heading : selector := [[Compound "H1" []]].

(** ['div[role="main"] span[aria-label*="stars"]'] *)
Definition sel_rating : selector :=
  [[main_region; Compound "SPAN" [AttrContains "aria-label" (str "stars")]]].

(** ['div[role="main"] button[aria-label*="reviews"]'] *)
Definition sel_reviews : selector :=
  [[main_region;
    Compound "BUTTON" [AttrContains "aria-label" (str "reviews")]]].

(** ['div[role="main"] button, div[role="main"] a,
     div[role="main"] div[data-item-id]'] *)
Definition sel_scan : selector :=
  [[main_region; Compound "BUTTON" []];
   [main_region; Compound "A" []];
   [main_region; Compound "DIV" [AttrPresent "data-item-id"]]].

(** ['a[href^="http"]'] *)
Definition sel_outbound : selector :=
  [[Compound "A" [AttrBegins "href" (str "http")]]].

(** ['a[href*="/maps/place/"]'] *)
Definition sel_place_link : selector :=
  [[Compound "A" [AttrContains "href" (str "/maps/place/")]]].

(** ['div[role="feed"]'], the [feedSelector] of [run]. *)
Definition feedSelector : selector :=
  [[Compound "DIV" [AttrIs "role" (str "feed")]]].

(** ** Extraction: [extractDetails] *)

(** The values a field of the returned object can hold. *)
Inductive jsval : Type :=
  | JSString (s : jstring)
  | JSNumber (z : Z).

Definition jsval_eqb (a b : jsval) : bool :=
  match a, b with
  | JSString s, JSString t => jstring_eqb s t
  | JSNumber x, JSNumber y => Z.eqb x y
  | _, _ => false
  end.

(** Truthiness, the [ToBoolean] of JavaScript. *)
Definition truthy (v : jsval) : bool :=
  match v with
  | JSString [] => false
  | JSString (_ :: _) => true
  | JSNumber z => negb (Z.eqb z 0)
  end.

(** The object [extractDetails] returns. *)
Record BusinessRecord : Type :=
  {
    name : jsval;
    phone : jsval;
    address : jsval;
    website : jsval;
    rating : jsval;
    reviews : jsval;
    url : jsval
  }.

(** The three variables [address], [phone], [website] of the scan. *)
Record scan_vars : Type :=
  ScanVars { v_address : jstring; v_phone : jstring; v_website : jstring }.

Definition NA : jstring := str "N/A".

(** The content string of one scanned element. *)
Definition content_of (el : element) : jstring :=
  let aria := attribute_or_empty el "aria-label" in
  let text := innerText el in
  cleanText (or_else aria text).

Definition item_id (el : element) : jstring :=
  attribute_or_empty el "data-item-id".

Definition is_address_candidate (el : element) : bool :=
  jstring_eqb (item_id el) (str "address")
  || includes (content_of el) (str "Address:").

Definition is_phone_candidate (el : element) : bool :=
  startsWith (item_id el) (str "phone")
  || includes (content_of el) (str "Phone:").

Definition is_website_candidate (el : element) : bool :=
  jstring_eqb (item_id el) (str "authority")
  || includes (content_of el) (str "Website:").

Definition possibleAddr (el : element) : jstring :=
  removeLabel (content_of el) (str "Address").

Definition possiblePhone (el : element) : jstring :=
  removeLabel (content_of el) (str "Phone").

(** [possiblePhone.match(/[\d\+\-\(\)\s]{5,}/)] is not [null]. *)
Definition phone_pattern (s : jstring) : bool := has_run is_phone_char 5 s.

(** The body of [elements.forEach]. *)
Definition scan_element (vars : scan_vars) (el : element) : scan_vars :=
  let content := content_of el in
  let vars1 :=
    if is_address_candidate el
    then if Nat.ltb 5 (length (possibleAddr el))
         then ScanVars (possibleAddr el) (v_phone vars) (v_website vars)
         else vars
    else vars in
  let vars2 :=
    if is_phone_candidate el
    then if phone_pattern (possiblePhone el)
         then ScanVars (v_address vars1) (possiblePhone el) (v_website vars1)
         else vars1
    else vars1 in
  if is_website_candidate el
  then if String.eqb (tagName el) "A" && negb (jstring_eqb (href el) [])
       then ScanVars (v_address vars2) (v_phone vars2) (href el)
       else ScanVars (v_address vars2) (v_phone vars2)
              (removeLabel content (str "Website"))
  else vars2.

Definition scan (document : element) : scan_vars :=
  fold_left scan_element (querySelectorAll document sel_scan)
    (ScanVars NA NA NA).

(** The fallback for the website. *)
Definition website_fallback (document : element) (found : jstring) : jstring :=
  if jstring_eqb found NA
  then match find (fun a => match getAttribute a "data-item-id" with
                            | Some v => jstring_eqb v (str "authority")
                            | None => false
                            end)
               (querySelectorAll document sel_outbound) with
       | Some webLink => cleanText (href webLink)
       | None => found
       end
  else found.

(** The text of the first heading, [''] when there is none. *)
Definition heading_text (document : element) : jstring :=
  match querySelector document sel_heading with
  | Some h1 => innerText h1
  | None => []
  end.

(** The element [sel_rating] finds has an [aria-label], so reading it never
    yields [null] (see [rating_label_present] below); likewise for the
    reviews. *)
Definition rating_of (document : element) : jstring :=
  match querySelector document sel_rating with
  | Some ratingEl => first_token (attribute_or_empty ratingEl "aria-label")
  | None => NA
  end.

Definition reviews_of (document : element) : jstring :=
  let reviewsMatch :=
    match querySelector document sel_reviews with
    | Some reviewsEl =>
        first_run is_digit_or_comma (attribute_or_empty reviewsEl "aria-label")
    | None => None
    end in
  match reviewsMatch with
  | Some m => remove_commas m
  | None => str "0"
  end.

(** [extractDetails(page, url)] on the document the page shows; [None] is
    [null]. *)
Definition extractDetails (document : element) (currentUrl : jstring)
  : option BusinessRecord :=
  let name := cleanText (heading_text document) in
  match name with
  | [] => None
  | _ =>
      let vars := scan document in
      Some {| name := JSString name;
              phone := JSString (v_phone vars);
              address := JSString (v_address vars);
              website := JSString (website_fallback document (v_website vars));
              rating := JSString (rating_of document);
              reviews := JSString (reviews_of document);
              url := JSString currentUrl |}
  end.

(** ** The driver: what [run] does with one extraction result *)

(** [if (data && data.name && data.name !== 'Google Maps')
       extractedData.push(data)] *)
Definition collect_result (extractedData : list BusinessRecord)
    (data : option BusinessRecord) : list BusinessRecord :=
  match data with
  | Some d =>
      if truthy (name d) && negb (jsval_eqb (name d) (JSString (str "Google Maps")))
      then extractedData ++ [d]
      else extractedData
  | None => extractedData
  end.

(** ** Discovery: [collectUrls] *)

(** [new Set()] with [add] and [Array.from]: a set of JavaScript iterates in
    insertion order, so it is the list of its members in that order. *)
Definition Set_add (urls : list jstring) (h : jstring) : list jstring :=
  if existsb (jstring_eqb h) urls then urls else urls ++ [h].

(** [a.slice(start, end)] for integer arguments. *)
Definition relative_index (len : nat) (i : Z) : nat :=
  if Z.ltb i 0
  then Z.to_nat (Z.max (Z.of_nat len + i) 0)
  else Nat.min (Z.to_nat i) len.

Definition slice (A : Type) (l : list A) (start stop : Z) : list A :=
  let k := relative_index (length l) start in
  let final := relative_index (length l) stop in
  firstn (final - k) (skipn k l).

(** What the program does to the page, in order. *)
Inductive effect : Type :=
  | ScrollBy (dx dy : Z)
  | Wait (ms : Z).

Section Discovery.

(** The browser: a state of the page, the document it shows, the
    [scrollHeight] of a node in it, and what a scroll of a node and a wait
    do to it. Nothing is assumed of them. *)
Variable World : Type.
Variable document : World -> element.
Variable scrollHeight : World -> element -> Z.
Variable scrollBy : element -> Z -> Z -> World -> World.
Variable wait : Z -> World -> World.

(** The variables of the in-page loop, with the effects issued so far
    (latest first) and the number of iterations begun. *)
Record loop_state : Type :=
  LoopState {
    retries : nat;
    world : World;
    trace : list effect;
    iterations : nat
  }.

Definition distance : Z := 800.

(** The page after the scroll and the wait that open an iteration. *)
Definition settled (container : element) (w : World) : World :=
  wait 1500 (scrollBy container 0 distance w).

(** [document.querySelectorAll('a[href*="/maps/place/"]').length] *)
Definition count_of (w : World) : nat :=
  length (querySelectorAll (document w) sel_place_link).

(** One iteration of [while (true)]: [true] when it ends in [break]. *)
Definition loop_body (container : element) (max : Z) (st : loop_state)
  : bool * loop_state :=
  let sh := scrollHeight (world st) container in
  let w := settled container (world st) in
  let tr := Wait 1500 :: ScrollBy 0 distance :: trace st in
  let n := S (iterations st) in
  let count := count_of w in
  if Z.leb max (Z.of_nat count)
  then (true, LoopState (retries st) w tr n)
  else if Z.eqb (scrollHeight w container) sh
  then
    let r := S (retries st) in
    let w' := if Nat.eqb r 2 then scrollBy container 0 (-300) w else w in
    let tr' := if Nat.eqb r 2 then ScrollBy 0 (-300) :: tr else tr in
    (Nat.ltb 8 r, LoopState r w' tr' n)
  else (false, LoopState 0 w tr n).

(** The loop, run for at most [fuel] iterations; [None] when it has not
    ended by then. *)
Fixpoint scroll_loop (fuel : nat) (container : element) (max : Z)
    (st : loop_state) : option loop_state :=
  match fuel with
  | O => None
  | S fuel' =>
      match loop_body container max st with
      | (true, st') => Some st'
      | (false, st') => scroll_loop fuel' container max st'
      end
  end.

(** The state the loop is in after [k] iterations, should none of them
    end it. *)
Fixpoint after (k : nat) (container : element) (max : Z) (st : loop_state)
  : loop_state :=
  match k with
  | O => st
  | S k' => after k' container max (snd (loop_body container max st))
  end.

(** The function given to [page.evaluate]. *)
Definition scroll_to_end (fuel : nat) (selector : selector) (max : Z)
    (w : World) : option loop_state :=
  match querySelector (document w) selector with
  | None => Some (LoopState 0 w [] 0)
  | Some container => scroll_loop fuel container max (LoopState 0 w [] 0)
  end.

(** The targets of the place links the page shows. *)
Definition hrefs_of (w : World) : list jstring :=
  List.map href (querySelectorAll (document w) sel_place_link).

(** The part of [collectUrls] after the loop. *)
Definition harvest (maxItems : Z) (w : World) : list jstring :=
  let urls := fold_left Set_add (hrefs_of w) [] in
  slice urls 0 maxItems.

(** [collectUrls(page, feedSelector, maxItems)]: the array returned and the
    state the loop ended in, [None] when the loop has not ended within
    [fuel] iterations. *)
Definition collectUrls (fuel : nat) (w : World) (selector : selector)
    (maxItems : Z) : option (list jstring * loop_state) :=
  match scroll_to_end fuel selector maxItems w with
  | None => None
  | Some st => Some (harvest maxItems (world st), st)
  end.

(** An iteration in which the scrollable extent is the same after the
    scroll and the wait as before. *)
Definition stalled (container : element) (st : loop_state) : Prop :=
  scrollHeight (settled container (world st)) container
  = scrollHeight (world st) container.


End Discovery.

(** The first index of [x] in [l]. *)
Fixpoint index_of (x : jstring) (l : list jstring) : option nat :=
  match l with
  | [] => None
  | y :: l' =>
      if jstring_eqb x y then Some 0
      else match index_of x l' with
           | Some i => Some (S i)
           | None => None
           end
  end.

(** [out] lists members of [seen] in the order of their first occurrence
    there. *)
Definition first_seen_order (seen out : list jstring) : Prop :=
  forall i j a b, i < j ->
    nth_error out i = Some a -> nth_error out j = Some b ->
    exists p q, index_of a seen = Some p /\ index_of b seen = Some q /\ p < q.

(** ** Vocabulary of the statements *)

(** Whitespace in [s] occurs only as single U+0020 characters; [prev] tells
    that the character before [s] is whitespace. *)
Fixpoint single_spaced (prev : bool) (s : jstring) : bool :=
  match s with
  | [] => true
  | c :: s' =>
      if is_space c
      then negb prev && N.eqb c 32 && single_spaced true s'
      else single_spaced false s'
  end.

Definition not_space (c : jschar) : bool := negb (is_space c).

(** An element whose address, or phone, candidate passes the filter. *)
Definition address_accepted (el : element) : bool :=
  is_address_candidate el && Nat.ltb 5 (length (possibleAddr el)).

Definition phone_accepted (el : element) : bool :=
  is_phone_candidate el && phone_pattern (possiblePhone el).

(** ** Sample documents *)

Definition attr (n : string) (v : jstring) : string * jstring := (n, v).

Definition text_element (tag : string) (attrs : list (string * jstring))
    (text : jstring) : element :=
  Element tag attrs text [] [].

Definition link_element (attrs : list (string * jstring)) (text target : jstring)
  : element :=
  Element "A" (attr "href" target :: attrs) text target [].

(** A detail page: a heading and a main region holding [items]. *)
Definition detail_page (heading : jstring) (items : list element) : element :=
  Element "HTML" [] [] []
    [Element "BODY" [] [] []
       [text_element "H1" [] heading;
        Element "DIV" [attr "role" (str "main")] [] [] items]].

(** A page without a heading. *)
Definition blank_page : element :=
  Element "HTML" [] [] [] [Element "BODY" [] [] [] []].

(** The heading ["  Joe's\n Cafe  "], with a line feed. *)
Definition joes_heading : jstring :=
  str "  Joe's" ++ [10%N] ++ str " Cafe  ".

Definition joes_page : element := detail_page joes_heading [].

Definition rated_page : element :=
  detail_page (str "Acme Plumbing")
    [text_element "SPAN" [attr "aria-label" (str "4.5 stars")] (str "4.5");
     text_element "BUTTON" [attr "aria-label" (str "1,234 reviews")]
       (str "(1,234)")].

(** A reviews label in which a comma comes before the first digit. *)
Definition comma_first_page : element :=
  detail_page (str "Acme Plumbing")
    [text_element "BUTTON" [attr "aria-label" (str "All reviews, 1,234")]
       (str "(1,234)")].

Definition acme_page : element :=
  detail_page (str "Acme Plumbing")
    [link_element [attr "data-item-id" (str "authority")] (str "acme.example")
       (str "https://acme.example")].

Definition short_address_page : element :=
  detail_page (str "Acme Plumbing")
    [text_element "BUTTON"
       [attr "data-item-id" (str "address"); attr "aria-label" (str "Address: Agra")]
       (str "Agra")].

Definition long_address_page : element :=
  detail_page (str "Acme Plumbing")
    [text_element "BUTTON"
       [attr "data-item-id" (str "address");
        attr "aria-label" (str "Address: 12 Elm Street, Agra")]
       (str "12 Elm Street, Agra")].

Definition call_us_page : element :=
  detail_page (str "Acme Plumbing")
    [text_element "BUTTON" [attr "data-item-id" (str "phone:tel:call")]
       (str "Call us now")].

Definition phone_page : element :=
  detail_page (str "Acme Plumbing")
    [text_element "BUTTON"
       [attr "data-item-id" (str "phone:tel:+15551234567");
        attr "aria-label" (str "Phone: +1 (555) 123-4567")]
       (str "+1 (555) 123-4567")].

Definition sample_url : jstring :=
  str "https://www.google.com/maps/place/Acme".

(** A record with the given name and defaults elsewhere. *)
Definition record_named (n : jsval) : BusinessRecord :=
  {| name := n; phone := JSString NA; address := JSString NA;
     website := JSString NA; rating := JSString NA;
     reviews := JSString (str "0"); url := JSString sample_url |}.

(** ** Sample browsers *)

Definition place_link (target : jstring) : element :=
  link_element [] [] target.

Definition url_a : jstring := str "https://www.google.com/maps/place/A".
Definition url_b : jstring := str "https://www.google.com/maps/place/B".
Definition url_c : jstring := str "https://www.google.com/maps/place/C".

Definition feed_of (items : list element) : element :=
  Element "DIV" [attr "role" (str "feed")] [] [] items.

(** A results page whose feed shows three places, the first of them
    twice. *)
Definition results_page : element :=
  Element "HTML" [] [] []
    [Element "BODY" [] [] []
       [feed_of [place_link url_a; place_link url_b; place_link url_a;
                 place_link url_c]]].

(** A page with place links and no feed. *)
Definition no_feed_page : element :=
  Element "HTML" [] [] []
    [Element "BODY" [] [] []
       [place_link url_b;
        Element "DIV" [] [] [] [place_link url_a; place_link url_b]]].

(** A results page whose feed shows no place. *)
Definition empty_results_page : element :=
  Element "HTML" [] [] [] [Element "BODY" [] [] [] [feed_of []]].

(** A browser in which nothing ever changes: the state is the document. *)
Definition still_document (w : element) : element := w.
Definition still_scrollHeight (w : element) (node : element) : Z := 100.
Definition still_scrollBy (node : element) (dx dy : Z) (w : element)
  : element := w.
Definition still_wait (ms : Z) (w : element) : element := w.

(** A browser whose feed grows at every wait and never shows a place: the
    state is the scrollable extent of the feed. *)
Definition growing_document (w : Z) : element := empty_results_page.
Definition growing_scrollHeight (w : Z) (node : element) : Z := w.
Definition growing_scrollBy (node : element) (dx dy : Z) (w : Z) : Z := w.
Definition growing_wait (ms : Z) (w : Z) : Z := (w + 1)%Z.

(** ** The driver: the query prompt of [run] *)

(** [!userInput || !userInput.trim()] *)
Definition rejected_input (userInput : jstring) : bool :=
  match userInput with
  | [] => true
  | _ => match trim userInput with [] => true | _ => false end
  end.

(** The prompt loop on the answers the operator types, in order: the value
    given to [CONFIG.searchQuery] and the number of times the error line was
    printed; [None] while every answer so far was rejected and the prompt
    still waits. *)
Fixpoint read_query (answers : list jstring) : option (jstring * nat) :=
  match answers with
  | [] => None
  | userInput :: later =>
      if rejected_input userInput
      then match read_query later with
           | Some (q, errors) => Some (q, S errors)
           | None => None
           end
      else Some (trim userInput, 0)
  end.

(** ** The driver: the batches of [run] *)

(** What the driver does that is seen from outside: the line
    ["[globalIndex/n] Visiting: url"] and the rest of 10 seconds between
    two batches. *)
Inductive driver_event : Type :=
  | Visiting (globalIndex : Z) (url : jstring)
  | Resting.

Record run_state : Type :=
  RunState { extractedData : list BusinessRecord;
             events : list driver_event }.

Section Driver.

(** The visit of a candidate: the document [extractDetails] is run on, or
    [None] when something inside the [try] throws (navigation, evaluation).
    The visits share one page, so the outcome may depend on which visit it
    is. *)
Variable visit : Z -> jstring -> option element.

(** The body of the inner [for]. *)
Definition process_url (st : run_state) (globalIndex : Z) (url : jstring)
  : run_state :=
  let seen := events st ++ [Visiting globalIndex url] in
  match visit globalIndex url with
  | Some document =>
      RunState (collect_result (extractedData st) (extractDetails document url))
        seen
  | None => RunState (extractedData st) seen
  end.

(** The inner [for], on what is left of the batch from index [j] on. *)
Fixpoint process_batch (batch : list jstring) (i j : Z) (st : run_state)
  : run_state :=
  match batch with
  | [] => st
  | url :: later =>
      process_batch later i (j + 1) (process_url st (i + j + 1) url)
  end.

(** The outer [for], from index [i], run for at most [fuel] batches. *)
Fixpoint process_batches (fuel : nat) (businessUrls : list jstring)
    (batchSize i : Z) (st : run_state) : option run_state :=
  match fuel with
  | O => None
  | S fuel' =>
      if Z.ltb i (Z.of_nat (length businessUrls))
      then
        let batch := slice businessUrls i (i + batchSize) in
        let st1 := process_batch batch i 0 st in
        let st2 :=
          if Z.ltb (i + batchSize) (Z.of_nat (length businessUrls))
          then RunState (extractedData st1) (events st1 ++ [Resting])
          else st1 in
        process_batches fuel' businessUrls batchSize (i + batchSize) st2
      else Some st
  end.

(** Phase 2 of [run]. *)
Definition phase2 (fuel : nat) (businessUrls : list jstring) (batchSize : Z)
  : option run_state :=
  process_batches fuel businessUrls batchSize 0 (RunState [] []).

(** The candidates visited one after the other with no batches: what the
    records collected are compared with. *)
Fixpoint collect_in_turn (urls : list jstring) (k : Z)
    (data : list BusinessRecord) : list BusinessRecord :=
  match urls with
  | [] => data
  | u :: later =>
      collect_in_turn later (k + 1)
        (match visit (k + 1) u with
         | Some document => collect_result data (extractDetails document u)
         | None => data
         end)
  end.

End Driver.

(** The visits among the events, and the number of rests. *)
Fixpoint visits_of (l : list driver_event) : list (Z * jstring) :=
  match l with
  | [] => []
  | Visiting k u :: l' => (k, u) :: visits_of l'
  | Resting :: l' => visits_of l'
  end.

Fixpoint rests_of (l : list driver_event) : nat :=
  match l with
  | [] => 0
  | Visiting _ _ :: l' => rests_of l'
  | Resting :: l' => S (rests_of l')
  end.

(** The candidates with their numbers, counted from [k + 1]. *)
Fixpoint numbered (urls : list jstring) (k : Z) : list (Z * jstring) :=
  match urls with
  | [] => []
  | u :: later => (k + 1, u)%Z :: numbered later (k + 1)
  end.

(** ** The notification: [sendTelegramReport] and [sendTelegramFile] *)

(** The requests made to the notification endpoint. *)
Inductive request : Type :=
  | SendMessage (count : nat)
  | SendDocument (path caption : jstring).

Definition outputFile : jstring := str "google_maps_data.csv".
Definition pdfFile : jstring := str "google_maps_summary.pdf".

Section Telegram.

(** The two environment variables ([''] when not set), what [fs.existsSync]
    answers, and whether a request resolves ([true]) or throws. *)
Variable TELEGRAM_BOT_TOKEN TELEGRAM_CHAT_ID : jstring.
Variable existsSync : jstring -> bool.
Variable post : request -> bool.

(** [sendTelegramFile]: the requests made so far, and this one added when
    the file exists; what becomes of the request is swallowed. *)
Definition sendTelegramFile (path caption : jstring) (sent : list request)
  : list request :=
  if existsSync path then sent ++ [SendDocument path caption] else sent.

(** [sendTelegramReport]: the requests made, in order. *)
Definition sendTelegramReport (count : nat) : list request :=
  match TELEGRAM_BOT_TOKEN, TELEGRAM_CHAT_ID with
  | [], _ => []
  | _, [] => []
  | _, _ =>
      let sent := [SendMessage count] in
      if post (SendMessage count)
      then
        let sent := sendTelegramFile outputFile (str "CSV Data") sent in
        if existsSync pdfFile
        then sendTelegramFile pdfFile (str "PDF Report") sent
        else sent
      else sent
  end.

End Telegram.

(** ** The report: the page [saveToPdf] renders *)

Definition nl : jstring := [10%N].

Section Report.

(** How a template literal shows a number; a string is shown as it is. *)
Variable number_to_string : Z -> jstring.

Definition ToString (v : jsval) : jstring :=
  match v with
  | JSString s => s
  | JSNumber z => number_to_string z
  end.

(** The row of one record. *)
Definition report_row (d : BusinessRecord) : jstring :=
  nl ++ str "                <tr><td>" ++ ToString (name d)
  ++ str "</td><td>" ++ ToString (phone d)
  ++ str "</td><td>" ++ ToString (address d)
  ++ str "</td><td>" ++ ToString (rating d) ++ str "</td></tr>".

(** [data.slice(0, 100).map(d => ...).join('')] *)
Definition report_rows (data : list BusinessRecord) : jstring :=
  concat (List.map report_row (slice data 0 100)).

(** [htmlContent] *)
Definition htmlContent (searchQuery : jstring) (data : list BusinessRecord)
  : jstring :=
  nl ++ str "        <html><head><style>"
  ++ nl ++ str "            body { font-family: sans-serif; padding: 20px; font-size: 10px; }"
  ++ nl ++ str "            table { width: 100%; border-collapse: collapse; }"
  ++ nl ++ str "            th, td { border: 1px solid #ccc; padding: 5px; }"
  ++ nl ++ str "            th { background: #eee; }"
  ++ nl ++ str "        </style></head>"
  ++ nl ++ str "        <body>"
  ++ nl ++ str "            <h2>Extraction Report</h2>"
  ++ nl ++ str "            <p><strong>Query:</strong> " ++ searchQuery
  ++ str "</p>"
  ++ nl ++ str "            <table>"
  ++ nl ++ str "                <thead><tr><th>Name</th><th>Phone</th><th>Address</th><th>Rating</th></tr></thead>"
  ++ nl ++ str "                <tbody>" ++ report_rows data
  ++ nl ++ str "                </tbody>"
  ++ nl ++ str "            </table>"
  ++ nl ++ str "        </body></html>".

End Report.

(** ** More vocabulary of the statements *)

(** The forward scrolls, the waits and the backward scrolls of a trace, and
    the sum of the vertical scrolls asked for. *)
Fixpoint forward_scrolls (tr : list effect) : nat :=
  match tr with
  | [] => 0
  | ScrollBy dx dy :: tr' =>
      (if Z.eqb dx 0 && Z.eqb dy 800 then 1 else 0) + forward_scrolls tr'
  | Wait _ :: tr' => forward_scrolls tr'
  end.

Fixpoint waits (tr : list effect) : nat :=
  match tr with
  | [] => 0
  | ScrollBy _ _ :: tr' => waits tr'
  | Wait _ :: tr' => S (waits tr')
  end.

Fixpoint backward_scrolls (tr : list effect) : nat :=
  match tr with
  | [] => 0
  | ScrollBy dx dy :: tr' =>
      (if Z.eqb dx 0 && Z.eqb dy (-300) then 1 else 0) + backward_scrolls tr'
  | Wait _ :: tr' => backward_scrolls tr'
  end.

Fixpoint scrolled (tr : list effect) : Z :=
  match tr with
  | [] => 0
  | ScrollBy _ dy :: tr' => (dy + scrolled tr')%Z
  | Wait _ :: tr' => scrolled tr'
  end.

(** What holds of the variables and the effects of the loop whenever an
    iteration begins or the loop has ended. *)
Definition paced (World : Type) (st : loop_state World) : Prop :=
  waits (trace st) = iterations st
  /\ forward_scrolls (trace st) = iterations st
  /\ 2 * backward_scrolls (trace st)
     + (if Nat.ltb (retries st) 2 then retries st else retries st - 2)
     <= iterations st
  /\ scrolled (trace st)
     = (800 * Z.of_nat (iterations st)
        - 300 * Z.of_nat (backward_scrolls (trace st)))%Z
  /\ retries st <= iterations st.

(** A string that neither starts nor ends with whitespace. *)
Definition trimmed (s : jstring) : Prop :=
  (forall c r, s = c :: r -> is_space c = false)
  /\ (forall r c, s = r ++ [c] -> is_space c = false).

(** A place link outside any feed and main region, tagged as the
    website. *)
Definition footer_website_page : element :=
  Element "HTML" [] [] []
    [Element "BODY" [] [] []
       [text_element "H1" [] (str "Acme Plumbing");
        Element "DIV" [attr "role" (str "main")] [] [] [];
        Element "FOOTER" [] [] []
          [link_element [attr "data-item-id" (str "authority")]
             (str "Website") (str "https://acme.example/ ")]]].

(** Two address candidates, the second rejected. *)
Definition two_address_page : element :=
  detail_page (str "Acme Plumbing")
    [text_element "BUTTON"
       [attr "data-item-id" (str "address");
        attr "aria-label" (str "ADDRESS 12 Elm Street, Agra")] [];
     text_element "BUTTON" [attr "aria-label" (str "Our Address: 7 Oak Road")]
       [];
     text_element "BUTTON"
       [attr "data-item-id" (str "address"); attr "aria-label" (str "Agra")]
       []].

(** The four fields of a record the report shows. *)
Definition shown (d : BusinessRecord) : jsval * jsval * jsval * jsval :=
  (name d, phone d, address d, rating d).

(** Visits of the three sample places: a page, an error, a page without a
    heading. *)
Definition sample_visit (k : Z) (u : jstring) : option element :=
  if jstring_eqb u url_a then Some acme_page
  else if jstring_eqb u url_b then None
  else Some blank_page.

(** What one candidate adds to the records on its own: the record of its
    page when the visit succeeds and the driver keeps it, nothing
    otherwise. *)
Definition contribution (visit : Z -> jstring -> option element)
    (candidate : Z * jstring) : list BusinessRecord :=
  match visit (fst candidate) (snd candidate) with
  | Some document =>
      collect_result [] (extractDetails document (snd candidate))
  | None => []
  end.

(** * Properties *)

(** ** Strings *)

Lemma jstring_eqb_eq (a b : jstring) : jstring_eqb a b = true <-> a = b.
Proof.
  revert b; induction a as [|x a IH]; intros [|y b]; simpl;
    try (split; [discriminate | congruence]); try tauto.
  rewrite andb_true_iff, N.eqb_eq, IH.
  split; [intros [-> ->]; reflexivity | intros H; inversion H; auto].
Qed.

Lemma jstring_eqb_refl (a : jstring) : jstring_eqb a a = true.
Proof. apply jstring_eqb_eq; reflexivity. Qed.

Lemma jstring_eqb_neq (a b : jstring) : jstring_eqb a b = false <-> a <> b.
Proof.
  rewrite <- jstring_eqb_eq.
  destruct (jstring_eqb a b); split; congruence.
Qed.

Lemma drop_while_nil (p : jschar -> bool) (s : jstring) :
  drop_while p s = [] <-> forallb p s = true.
Proof.
  induction s as [|c s IH]; simpl; [tauto|].
  destruct (p c); simpl; [exact IH | split; discriminate].
Qed.

Lemma drop_while_head (p : jschar -> bool) (s : jstring) c r :
  drop_while p s = c :: r -> p c = false.
Proof.
  induction s as [|d s IH]; simpl; [discriminate|].
  destruct (p d) eqn:E; [exact IH | congruence].
Qed.

Lemma drop_while_suffix (p : jschar -> bool) (s : jstring) :
  exists pre, s = pre ++ drop_while p s /\ forallb p pre = true.
Proof.
  induction s as [|c s [pre [IH1 IH2]]]; simpl.
  - exists []; auto.
  - destruct (p c) eqn:E.
    + exists (c :: pre); simpl; rewrite E, IH2; split;
        [f_equal; exact IH1 | reflexivity].
    + exists []; auto.
Qed.

Lemma forallb_drop_while (p : jschar -> bool) (s : jstring) :
  forallb p (drop_while p s) = forallb p s.
Proof.
  induction s as [|c s IH]; simpl; [reflexivity|].
  destruct (p c) eqn:E; simpl; [exact IH | rewrite E; reflexivity].
Qed.

Lemma forallb_rev_eq (p : jschar -> bool) (s : jstring) :
  forallb p (rev s) = forallb p s.
Proof.
  induction s as [|c s IH]; simpl; [reflexivity|].
  rewrite forallb_app, IH; simpl.
  rewrite andb_true_r; apply andb_comm.
Qed.

(** [trim] cuts a whitespace prefix and a whitespace suffix off. *)
Lemma trim_infix (s : jstring) :
  exists pre post,
    s = pre ++ trim s ++ post
    /\ forallb is_space pre = true /\ forallb is_space post = true.
Proof.
  unfold trim.
  destruct (drop_while_suffix is_space s) as [pre [Hs Hpre]].
  destruct (drop_while_suffix is_space (rev (drop_while is_space s)))
    as [q [Hq Hq']].
  exists pre, (rev q); repeat split; auto.
  - rewrite Hs at 1; f_equal.
    rewrite <- rev_app_distr, <- Hq, rev_involutive; reflexivity.
  - rewrite forallb_rev_eq; exact Hq'.
Qed.

Lemma trim_nil (s : jstring) : trim s = [] <-> forallb is_space s = true.
Proof.
  unfold trim; split; intros H.
  - apply (f_equal (@rev jschar)) in H; rewrite rev_involutive in H; simpl in H.
    apply drop_while_nil in H.
    rewrite forallb_rev_eq, forallb_drop_while in H; exact H.
  - apply drop_while_nil in H; rewrite H; reflexivity.
Qed.

Lemma trim_first (s : jstring) c r : trim s = c :: r -> is_space c = false.
Proof.
  unfold trim; intros H.
  destruct (drop_while_suffix is_space (rev (drop_while is_space s)))
    as [q [Hq _]].
  apply (f_equal (@rev jschar)) in Hq.
  rewrite rev_involutive, rev_app_distr, H in Hq.
  simpl in Hq.
  apply (drop_while_head is_space s Hq).
Qed.

Lemma trim_last (s : jstring) r c : trim s = r ++ [c] -> is_space c = false.
Proof.
  unfold trim; intros H.
  apply (f_equal (@rev jschar)) in H.
  rewrite rev_involutive, rev_app_distr in H; simpl in H.
  apply (drop_while_head is_space _ H).
Qed.

Lemma forallb_replace_runs (cls : jschar -> bool) (b : bool) (s : jstring) :
  (forall c, cls c = true -> is_space c = true) ->
  forallb is_space (replace_runs_from cls (str " ") b s) = forallb is_space s.
Proof.
  intros Hcls; revert b; induction s as [|c s IH]; intros b; simpl;
    [reflexivity|].
  destruct (cls c) eqn:E.
  - rewrite forallb_app, IH, (Hcls c E).
    destruct b; reflexivity.
  - simpl; rewrite IH; reflexivity.
Qed.

Lemma is_crlf_space (c : jschar) : is_crlf c = true -> is_space c = true.
Proof.
  unfold is_crlf; rewrite orb_true_iff, !N.eqb_eq; intros [-> | ->];
    reflexivity.
Qed.

(** [cleanText] yields the empty string exactly on the strings made of
    whitespace only. *)
Lemma cleanText_nil (s : jstring) :
  cleanText s = [] <-> forallb is_space s = true.
Proof.
  destruct s as [|c s]; [simpl; tauto|].
  unfold cleanText, replace_runs.
  rewrite trim_nil, !forallb_replace_runs; auto using is_crlf_space.
  tauto.
Qed.

(** [cleanText] keeps the characters that are not whitespace, in order. *)
Lemma filter_replace_runs (cls : jschar -> bool) (b : bool) (s : jstring) :
  (forall c, cls c = true -> is_space c = true) ->
  filter not_space (replace_runs_from cls (str " ") b s)
  = filter not_space s.
Proof.
  intros Hcls; revert b; induction s as [|c s IH]; intros b; simpl;
    [reflexivity|].
  destruct (cls c) eqn:E.
  - rewrite filter_app, IH; unfold not_space; rewrite (Hcls c E); simpl.
    destruct b; reflexivity.
  - simpl; rewrite IH; reflexivity.
Qed.

Lemma filter_all_space (s : jstring) :
  forallb is_space s = true -> filter not_space s = [].
Proof.
  induction s as [|c s IH]; simpl; [reflexivity|].
  rewrite andb_true_iff; intros [Hc H]; unfold not_space at 1; rewrite Hc;
    simpl; auto.
Qed.

Lemma filter_trim (s : jstring) :
  filter not_space (trim s)
  = filter not_space s.
Proof.
  destruct (trim_infix s) as [pre [post [Hs [H1 H2]]]].
  rewrite Hs at 2.
  rewrite !filter_app, (filter_all_space _ H1), (filter_all_space _ H2).
  simpl; rewrite app_nil_r; reflexivity.
Qed.

Lemma cleanText_keeps_text (s : jstring) :
  filter not_space (cleanText s)
  = filter not_space s.
Proof.
  destruct s as [|c s]; [reflexivity|].
  unfold cleanText, replace_runs.
  rewrite filter_trim, !filter_replace_runs; auto using is_crlf_space.
Qed.

Lemma single_spaced_replace (b : bool) (s : jstring) :
  single_spaced b (replace_runs_from is_space (str " ") b s) = true.
Proof.
  revert b; induction s as [|c s IH]; intros b; simpl; [reflexivity|].
  destruct (is_space c) eqn:E.
  - destruct b; simpl; [apply IH | rewrite IH; reflexivity].
  - simpl; rewrite E; apply IH.
Qed.

Lemma single_spaced_weaken (b : bool) (s : jstring) :
  single_spaced b s = true -> single_spaced false s = true.
Proof.
  destruct s as [|c s]; simpl; [reflexivity|].
  destruct (is_space c); [|tauto].
  destruct b; simpl; [discriminate | tauto].
Qed.

Lemma single_spaced_app_l (b : bool) (l1 l2 : jstring) :
  single_spaced b (l1 ++ l2) = true -> single_spaced b l1 = true.
Proof.
  revert b; induction l1 as [|c l1 IH]; intros b; simpl; [reflexivity|].
  destruct (is_space c); [|apply IH].
  rewrite !andb_true_iff; intros [H1 H2]; split; [exact H1 | apply IH, H2].
Qed.

Lemma single_spaced_app_r (b : bool) (l1 l2 : jstring) :
  single_spaced b (l1 ++ l2) = true -> single_spaced false l2 = true.
Proof.
  revert b; induction l1 as [|c l1 IH]; intros b; simpl.
  - apply single_spaced_weaken.
  - destruct (is_space c); [|apply IH].
    rewrite !andb_true_iff; intros [_ H2]; apply (IH _ H2).
Qed.

Lemma single_spaced_In (b : bool) (s : jstring) (c : jschar) :
  single_spaced b s = true -> In c s -> is_space c = true -> c = 32%N.
Proof.
  revert b; induction s as [|d s IH]; intros b; simpl; [tauto|].
  intros H [-> | Hin] Hc.
  - rewrite Hc, !andb_true_iff in H.
    destruct H as [[_ H] _]; apply N.eqb_eq, H.
  - destruct (is_space d); [|apply (IH _ H Hin Hc)].
    rewrite !andb_true_iff in H; destruct H as [_ H]; apply (IH _ H Hin Hc).
Qed.

Lemma single_spaced_adjacent (l1 l2 : jstring) (a b : jschar) :
  single_spaced false (l1 ++ a :: b :: l2) = true ->
  is_space a = true -> is_space b = false.
Proof.
  intros H Ha; apply single_spaced_app_r in H; simpl in H.
  rewrite Ha in H.
  destruct (is_space b); [|reflexivity].
  apply andb_true_iff in H; destruct H as [_ H]; simpl in H; discriminate.
Qed.

Lemma single_spaced_trim (s : jstring) :
  single_spaced false s = true -> single_spaced false (trim s) = true.
Proof.
  intros H; destruct (trim_infix s) as [pre [post [Hs _]]].
  rewrite Hs in H.
  apply single_spaced_app_r, single_spaced_app_l in H; exact H.
Qed.

Lemma single_spaced_cleanText (s : jstring) :
  single_spaced false (cleanText s) = true.
Proof.
  destruct s as [|c s]; [reflexivity|].
  unfold cleanText; apply single_spaced_trim, single_spaced_replace.
Qed.

(** ** The document *)

Lemma querySelectorAll_In (doc : element) (sel : selector) (el : element) :
  In el (querySelectorAll doc sel)
  <-> exists ancestors,
        In (ancestors, el) (walk [] doc) /\ matches sel ancestors el = true.
Proof.
  unfold querySelectorAll; rewrite in_map_iff; split.
  - intros [[ancs e] [He Hin]]; simpl in He; subst e.
    apply filter_In in Hin; simpl in Hin; exists ancs; exact Hin.
  - intros [ancs H]; exists (ancs, el); split; [reflexivity|].
    apply filter_In; exact H.
Qed.

Lemma querySelector_In (doc : element) (sel : selector) (el : element) :
  querySelector doc sel = Some el -> In el (querySelectorAll doc sel).
Proof.
  unfold querySelector; destruct (querySelectorAll doc sel); simpl;
    [discriminate | intros H; inversion H; auto].
Qed.

Lemma querySelector_None (doc : element) (sel : selector) :
  querySelector doc sel = None <-> querySelectorAll doc sel = [].
Proof.
  unfold querySelector; destruct (querySelectorAll doc sel); simpl;
    split; congruence.
Qed.

(** What the selector of the rating promises of the element it finds. *)
Lemma rating_label_present (doc : element) (el : element) :
  querySelector doc sel_rating = Some el ->
  exists label,
    getAttribute el "aria-label" = Some label
    /\ includes label (str "stars") = true.
Proof.
  intros H; apply querySelector_In, querySelectorAll_In in H.
  destruct H as [ancs [_ H]].
  unfold matches, sel_rating in H; simpl in H.
  rewrite orb_false_r in H.
  unfold matches_complex in H; simpl in H.
  apply andb_true_iff in H; destruct H as [H _].
  unfold matches_compound in H; simpl in H.
  apply andb_true_iff in H; destruct H as [_ H].
  rewrite andb_true_r in H.
  destruct (getAttribute el "aria-label") as [a|]; [|discriminate].
  exists a; split; [reflexivity | exact H].
Qed.

Lemma reviews_label_present (doc : element) (el : element) :
  querySelector doc sel_reviews = Some el ->
  exists label,
    getAttribute el "aria-label" = Some label
    /\ includes label (str "reviews") = true.
Proof.
  intros H; apply querySelector_In, querySelectorAll_In in H.
  destruct H as [ancs [_ H]].
  unfold matches, sel_reviews in H; simpl in H.
  rewrite orb_false_r in H.
  unfold matches_complex in H; simpl in H.
  apply andb_true_iff in H; destruct H as [H _].
  unfold matches_compound in H; simpl in H.
  apply andb_true_iff in H; destruct H as [_ H].
  rewrite andb_true_r in H.
  destruct (getAttribute el "aria-label") as [a|]; [|discriminate].
  exists a; split; [reflexivity | exact H].
Qed.

(** ** Extraction *)

Lemma extractDetails_None (doc : element) (currentUrl : jstring) :
  extractDetails doc currentUrl = None <-> cleanText (heading_text doc) = [].
Proof.
  unfold extractDetails.
  destruct (cleanText (heading_text doc)); split; congruence.
Qed.

Lemma extractDetails_Some (doc : element) (currentUrl : jstring) r :
  extractDetails doc currentUrl = Some r ->
  r = {| name := JSString (cleanText (heading_text doc));
         phone := JSString (v_phone (scan doc));
         address := JSString (v_address (scan doc));
         website := JSString (website_fallback doc (v_website (scan doc)));
         rating := JSString (rating_of doc);
         reviews := JSString (reviews_of doc);
         url := JSString currentUrl |}.
Proof.
  unfold extractDetails.
  destruct (cleanText (heading_text doc)); [discriminate|].
  intros H; inversion H; reflexivity.
Qed.

Lemma extractDetails_total (doc : element) (currentUrl : jstring) :
  cleanText (heading_text doc) <> [] ->
  exists r, extractDetails doc currentUrl = Some r.
Proof.
  intros H; destruct (extractDetails doc currentUrl) as [r|] eqn:E.
  - exists r; reflexivity.
  - apply extractDetails_None in E; contradiction.
Qed.

(** In a left fold where each step either overwrites a variable or leaves
    it, the last overwriting step decides the final value. *)
Lemma find_snoc (A : Type) (P : A -> bool) (l : list A) (x : A) :
  find P (rev (x :: l))
  = match find P (rev l) with
    | Some y => Some y
    | None => if P x then Some x else None
    end.
Proof.
  simpl; generalize (rev l); intros m.
  induction m as [|y m IH]; simpl; [reflexivity|].
  destruct (P y); [reflexivity | exact IH].
Qed.

Lemma fold_last_wins (A B C : Type) (f : A -> B -> A) (proj : A -> C)
    (P : B -> bool) (g : B -> C) :
  (forall a b, proj (f a b) = if P b then g b else proj a) ->
  forall l a,
    proj (fold_left f l a)
    = match find P (rev l) with
      | Some b => g b
      | None => proj a
      end.
Proof.
  intros Hstep; induction l as [|x l IH]; intros a; [reflexivity|].
  simpl fold_left; rewrite IH, find_snoc.
  destruct (find P (rev l)); [reflexivity|].
  rewrite Hstep; destruct (P x); reflexivity.
Qed.

Lemma scan_element_address (vars : scan_vars) (el : element) :
  v_address (scan_element vars el)
  = if address_accepted el then possibleAddr el else v_address vars.
Proof.
  unfold scan_element, address_accepted.
  destruct (is_address_candidate el), (Nat.ltb 5 (length (possibleAddr el))),
    (is_phone_candidate el), (phone_pattern (possiblePhone el)),
    (is_website_candidate el),
    (String.eqb (tagName el) "A" && negb (jstring_eqb (href el) []));
    reflexivity.
Qed.

Lemma scan_element_phone (vars : scan_vars) (el : element) :
  v_phone (scan_element vars el)
  = if phone_accepted el then possiblePhone el else v_phone vars.
Proof.
  unfold scan_element, phone_accepted.
  destruct (is_address_candidate el), (Nat.ltb 5 (length (possibleAddr el))),
    (is_phone_candidate el), (phone_pattern (possiblePhone el)),
    (is_website_candidate el),
    (String.eqb (tagName el) "A" && negb (jstring_eqb (href el) []));
    reflexivity.
Qed.

Lemma scan_element_website (vars : scan_vars) (el : element) :
  v_website (scan_element vars el)
  = if is_website_candidate el
    then (if String.eqb (tagName el) "A" && negb (jstring_eqb (href el) [])
          then href el
          else removeLabel (content_of el) (str "Website"))
    else v_website vars.
Proof.
  unfold scan_element.
  destruct (is_address_candidate el), (Nat.ltb 5 (length (possibleAddr el))),
    (is_phone_candidate el), (phone_pattern (possiblePhone el)),
    (is_website_candidate el),
    (String.eqb (tagName el) "A" && negb (jstring_eqb (href el) []));
    reflexivity.
Qed.

Lemma scan_address (doc : element) :
  v_address (scan doc)
  = match find address_accepted (rev (querySelectorAll doc sel_scan)) with
    | Some el => possibleAddr el
    | None => NA
    end.
Proof.
  unfold scan.
  apply (fold_last_wins scan_element v_address address_accepted possibleAddr).
  apply scan_element_address.
Qed.

Lemma scan_phone (doc : element) :
  v_phone (scan doc)
  = match find phone_accepted (rev (querySelectorAll doc sel_scan)) with
    | Some el => possiblePhone el
    | None => NA
    end.
Proof.
  unfold scan.
  apply (fold_last_wins scan_element v_phone phone_accepted possiblePhone).
  apply scan_element_phone.
Qed.

Lemma scan_website (doc : element) :
  v_website (scan doc)
  = match find is_website_candidate (rev (querySelectorAll doc sel_scan)) with
    | Some el =>
        if String.eqb (tagName el) "A" && negb (jstring_eqb (href el) [])
        then href el
        else removeLabel (content_of el) (str "Website")
    | None => NA
    end.
Proof.
  unfold scan.
  apply (fold_last_wins scan_element v_website is_website_candidate
           (fun el =>
              if String.eqb (tagName el) "A" && negb (jstring_eqb (href el) [])
              then href el
              else removeLabel (content_of el) (str "Website"))).
  apply scan_element_website.
Qed.

Lemma find_none_forall (A : Type) (P : A -> bool) (l : list A) :
  (forall x, In x l -> P x = false) -> find P (rev l) = None.
Proof.
  intros H; destruct (find P (rev l)) as [x|] eqn:E; [|reflexivity].
  apply find_some in E; destruct E as [Hin HP].
  apply in_rev in Hin; rewrite (H x Hin) in HP; discriminate.
Qed.

(** C5: [extractDetails] returns [null] exactly when the text of the first
    heading (the empty string when the page has none) is empty or made of
    whitespace only, which is when the normalised name is empty; on every
    other page it returns a record, and a field nothing on the page
    provides holds its default. *)
Theorem extractDetails_rejects_only_blank_heading
    (doc : element) (currentUrl : jstring) :
  (extractDetails doc currentUrl = None
   <-> forallb is_space (heading_text doc) = true)
  /\ (extractDetails doc currentUrl = None
      <-> cleanText (heading_text doc) = [])
  /\ (forallb is_space (heading_text doc) = false ->
      exists r,
        extractDetails doc currentUrl = Some r
        /\ name r = JSString (cleanText (heading_text doc))
        /\ (querySelector doc sel_rating = None -> rating r = JSString NA)
        /\ (querySelector doc sel_reviews = None ->
            reviews r = JSString (str "0"))
        /\ ((forall el, In el (querySelectorAll doc sel_scan) ->
                        address_accepted el = false) ->
            address r = JSString NA)
        /\ ((forall el, In el (querySelectorAll doc sel_scan) ->
                        phone_accepted el = false) ->
            phone r = JSString NA)
        /\ ((forall el, In el (querySelectorAll doc sel_scan) ->
                        is_website_candidate el = false) ->
            querySelectorAll doc sel_outbound = [] ->
            website r = JSString NA)).
Proof.
  split; [rewrite extractDetails_None; apply cleanText_nil|].
  split; [apply extractDetails_None|].
  intros Hblank.
  assert (Hname : cleanText (heading_text doc) <> []).
  { rewrite cleanText_nil, Hblank; discriminate. }
  destruct (extractDetails_total doc currentUrl Hname) as [r Hr].
  exists r; split; [exact Hr|].
  apply extractDetails_Some in Hr; subst r; simpl.
  split; [reflexivity|].
  split; [intros H; unfold rating_of; rewrite H; reflexivity|].
  split; [intros H; unfold reviews_of; rewrite H; reflexivity|].
  split; [intros H; rewrite scan_address, (find_none_forall _ _ H); reflexivity|].
  split; [intros H; rewrite scan_phone, (find_none_forall _ _ H); reflexivity|].
  intros H Hout.
  rewrite scan_website, (find_none_forall _ _ H).
  unfold website_fallback; rewrite Hout; reflexivity.
Qed.

Lemma extractDetails_rejects_only_blank_heading_witness :
  extractDetails blank_page sample_url = None
  /\ extractDetails (detail_page (str "   ") []) sample_url = None
  /\ exists r,
       extractDetails joes_page sample_url = Some r
       /\ name r = JSString (cleanText (heading_text joes_page)).
Proof.
  split; [|split].
  - apply (proj1 (extractDetails_rejects_only_blank_heading
                    blank_page sample_url)); reflexivity.
  - apply (proj1 (extractDetails_rejects_only_blank_heading
                    (detail_page (str "   ") []) sample_url)); reflexivity.
  - destruct (proj2 (proj2 (extractDetails_rejects_only_blank_heading
                              joes_page sample_url)) eq_refl)
      as [r [H1 [H2 _]]].
    exists r; split; assumption.
Defined.

(** The second replacement alone decides: the line breaks the first one
    turns into spaces are whitespace before and after it. *)
Lemma replace_runs_after_crlf (rep : jstring) (b b' : bool) (s : jstring) :
  (b' = true -> b = true) ->
  replace_runs_from is_space rep b
    (replace_runs_from is_crlf (str " ") b' s)
  = replace_runs_from is_space rep b s.
Proof.
  revert b b'; induction s as [|c s IH]; intros b b' Hb; simpl;
    [reflexivity|].
  destruct (is_crlf c) eqn:E.
  - rewrite (is_crlf_space _ E).
    destruct b'.
    + rewrite (Hb eq_refl); simpl; apply IH; auto.
    + simpl; rewrite IH by auto; reflexivity.
  - simpl; destruct (is_space c); rewrite IH; auto; discriminate.
Qed.

Lemma cleanText_one_pass (s : jstring) :
  cleanText s = trim (replace_runs_from is_space (str " ") false s).
Proof.
  destruct s as [|c s]; [reflexivity|].
  unfold cleanText, replace_runs.
  rewrite replace_runs_after_crlf; [reflexivity | discriminate].
Qed.

Lemma replace_runs_app_kept (b : bool) (x : jstring) (a : jschar)
    (rest : jstring) :
  is_space a = false ->
  replace_runs_from is_space (str " ") b (x ++ a :: rest)
  = replace_runs_from is_space (str " ") b x
    ++ a :: replace_runs_from is_space (str " ") false rest.
Proof.
  intros Ha; revert b; induction x as [|c x IH]; intros b; simpl.
  - rewrite Ha; reflexivity.
  - destruct (is_space c); rewrite IH; [|reflexivity].
    rewrite <- app_assoc; reflexivity.
Qed.

Lemma replace_runs_inside_run (run rest : jstring) :
  forallb is_space run = true ->
  replace_runs_from is_space (str " ") true (run ++ rest)
  = replace_runs_from is_space (str " ") true rest.
Proof.
  induction run as [|c run IH]; simpl; [reflexivity|].
  rewrite andb_true_iff; intros [-> H]; simpl; apply IH, H.
Qed.

Lemma replace_runs_whole_run (run rest : jstring) :
  run <> [] -> forallb is_space run = true ->
  replace_runs_from is_space (str " ") false (run ++ rest)
  = 32%N :: replace_runs_from is_space (str " ") true rest.
Proof.
  destruct run as [|c run]; [congruence|]; intros _; simpl.
  rewrite andb_true_iff; intros [-> H]; simpl.
  rewrite (@replace_runs_inside_run run rest H); reflexivity.
Qed.

(** Trimming the end only. *)
Lemma drop_while_app_kept (u : jstring) (a : jschar) (rest : jstring) :
  is_space a = false ->
  drop_while is_space (u ++ a :: rest)
  = drop_while is_space (u ++ [a]) ++ rest.
Proof.
  intros Ha; induction u as [|c u IH]; simpl.
  - rewrite Ha; reflexivity.
  - destruct (is_space c); [exact IH|].
    simpl; rewrite <- app_assoc; reflexivity.
Qed.

Lemma drop_while_ends (u : jstring) (a : jschar) :
  is_space a = false ->
  exists w, drop_while is_space (u ++ [a]) = w ++ [a].
Proof.
  intros Ha; induction u as [|c u [w IH]]; simpl.
  - rewrite Ha; exists []; reflexivity.
  - destruct (is_space c); [exists w; exact IH | exists (c :: u); reflexivity].
Qed.

Lemma trim_end_app_kept (pre : jstring) (b : jschar) (v : jstring) :
  is_space b = false ->
  rev (drop_while is_space (rev (pre ++ b :: v)))
  = pre ++ rev (drop_while is_space (rev (b :: v))).
Proof.
  intros Hb; rewrite rev_app_distr; simpl rev.
  rewrite <- app_assoc; simpl app.
  rewrite (@drop_while_app_kept (rev v) b (rev pre) Hb), rev_app_distr.
  rewrite rev_involutive; reflexivity.
Qed.

Lemma trim_starts (b : jschar) (v : jstring) :
  is_space b = false -> exists r, trim (b :: v) = b :: r.
Proof.
  intros Hb; unfold trim; simpl drop_while; rewrite Hb; simpl rev.
  destruct (@drop_while_ends (rev v) b Hb) as [w Hw].
  rewrite Hw, rev_app_distr; simpl; exists (rev w); reflexivity.
Qed.

Lemma trim_ends (u : jstring) (a : jschar) :
  is_space a = false -> exists w, trim (u ++ [a]) = w ++ [a].
Proof.
  intros Ha; unfold trim.
  destruct (@drop_while_ends u a Ha) as [w Hw]; rewrite Hw.
  rewrite rev_app_distr; simpl; rewrite Ha; simpl.
  rewrite rev_involutive; exists w; reflexivity.
Qed.

(** [trim] leaves alone what lies between two characters it keeps. *)
Lemma trim_between (u : jstring) (a : jschar) (mid : jstring) (b : jschar)
    (v : jstring) :
  is_space a = false -> is_space b = false ->
  trim (u ++ a :: mid ++ b :: v) = trim (u ++ [a]) ++ mid ++ trim (b :: v).
Proof.
  intros Ha Hb.
  destruct (@drop_while_ends u a Ha) as [w Hw].
  assert (H1 : trim (u ++ [a]) = w ++ [a]).
  { unfold trim; rewrite Hw, rev_app_distr; simpl; rewrite Ha; simpl.
    rewrite rev_involutive; reflexivity. }
  assert (H2 : trim (b :: v)
               = rev (drop_while is_space (rev (b :: v)))).
  { unfold trim; simpl drop_while; rewrite Hb; reflexivity. }
  rewrite H1, H2; unfold trim.
  rewrite (@drop_while_app_kept u a (mid ++ b :: v) Ha), Hw.
  replace ((w ++ [a]) ++ mid ++ b :: v) with (((w ++ [a]) ++ mid) ++ b :: v)
    by (rewrite <- !app_assoc; reflexivity).
  rewrite (@trim_end_app_kept ((w ++ [a]) ++ mid) b v Hb), <- !app_assoc.
  reflexivity.
Qed.

(** What [cleanText] makes of a text around two characters it keeps: the
    whitespace between them, if any, becomes one space. *)
Lemma cleanText_between (x : jstring) (a : jschar) (run : jstring)
    (b : jschar) (y : jstring) :
  is_space a = false -> is_space b = false ->
  forallb is_space run = true ->
  cleanText (x ++ a :: run ++ b :: y)
  = cleanText (x ++ [a])
    ++ (match run with [] => [] | _ :: _ => [32%N] end)
    ++ cleanText (b :: y).
Proof.
  intros Ha Hb Hrun.
  rewrite !cleanText_one_pass.
  rewrite (@replace_runs_app_kept false x a (run ++ b :: y) Ha).
  rewrite (@replace_runs_app_kept false x a [] Ha).
  simpl (replace_runs_from is_space (str " ") false []).
  assert (Hy : replace_runs_from is_space (str " ") false (b :: y)
               = b :: replace_runs_from is_space (str " ") false y)
    by (simpl; rewrite Hb; reflexivity).
  rewrite Hy.
  destruct run as [|c run].
  - simpl app at 2; rewrite Hy.
    apply (@trim_between _ a [] b _ Ha Hb).
  - rewrite (@replace_runs_whole_run (c :: run) (b :: y)) by
      (auto; discriminate).
    simpl (replace_runs_from is_space (str " ") true (b :: y)).
    rewrite Hb.
    apply (@trim_between _ a [32%N] b _ Ha Hb).
Qed.

Lemma cleanText_ends (x : jstring) (a : jschar) :
  is_space a = false -> exists w, cleanText (x ++ [a]) = w ++ [a].
Proof.
  intros Ha; rewrite cleanText_one_pass.
  rewrite (@replace_runs_app_kept false x a [] Ha).
  apply trim_ends, Ha.
Qed.

Lemma cleanText_starts (b : jschar) (y : jstring) :
  is_space b = false -> exists r, cleanText (b :: y) = b :: r.
Proof.
  intros Hb; rewrite cleanText_one_pass; simpl; rewrite Hb.
  apply trim_starts, Hb.
Qed.

(** C8: the name is the heading with every run of whitespace and line
    breaks collapsed to one space and the ends trimmed: the heading
    ["  Joe's\n Cafe  "] gives the name ["Joe's Cafe"]. In general the
    normalised text neither starts nor ends with whitespace, holds no
    whitespace but single U+0020 characters, and keeps the other characters
    in order; a run of whitespace, line breaks included, between two
    characters that are not whitespace leaves exactly one U+0020 between
    them, and two such characters next to each other stay so. *)
Theorem heading_whitespace_normalised :
  (forall doc currentUrl,
     heading_text doc = joes_heading ->
     exists r,
       extractDetails doc currentUrl = Some r
       /\ name r = JSString (str "Joe's Cafe"))
  /\ (forall s,
        (forall c r, cleanText s = c :: r -> is_space c = false)
        /\ (forall r c, cleanText s = r ++ [c] -> is_space c = false)
        /\ (forall c, In c (cleanText s) -> is_space c = true -> c = 32%N)
        /\ (forall l1 a b l2, cleanText s = l1 ++ a :: b :: l2 ->
                              is_space a = true -> is_space b = false)
        /\ filter not_space (cleanText s) = filter not_space s)
  /\ (forall x a run b y,
        is_space a = false -> is_space b = false ->
        run <> [] -> forallb is_space run = true ->
        exists w r,
          cleanText (x ++ [a]) = w ++ [a]
          /\ cleanText (b :: y) = b :: r
          /\ cleanText (x ++ a :: run ++ b :: y) = w ++ a :: 32%N :: b :: r)
  /\ (forall x a b y,
        is_space a = false -> is_space b = false ->
        exists w r,
          cleanText (x ++ [a]) = w ++ [a]
          /\ cleanText (b :: y) = b :: r
          /\ cleanText (x ++ a :: b :: y) = w ++ a :: b :: r).
Proof.
  split; [|split; [|split]].
  - intros doc currentUrl Hh.
    assert (Hc : cleanText (heading_text doc) = str "Joe's Cafe")
      by (rewrite Hh; reflexivity).
    assert (Hname : cleanText (heading_text doc) <> [])
      by (rewrite Hc; discriminate).
    destruct (extractDetails_total doc currentUrl Hname) as [r Hr].
    exists r; split; [exact Hr|].
    apply extractDetails_Some in Hr; subst r; simpl; rewrite Hc; reflexivity.
  - intros s; repeat split.
    + destruct s as [|d s]; [discriminate|]; apply trim_first.
    + destruct s as [|d s]; [intros [|? ?]; discriminate|]; apply trim_last.
    + intros c; eapply single_spaced_In; apply single_spaced_cleanText.
    + intros l1 a b l2 H; apply (@single_spaced_adjacent l1 l2 a b).
      rewrite <- H; apply single_spaced_cleanText.
    + apply cleanText_keeps_text.
  - intros x a run b y Ha Hb Hne Hrun.
    destruct (@cleanText_ends x a Ha) as [w Hw].
    destruct (@cleanText_starts b y Hb) as [r Hr].
    exists w, r; split; [exact Hw|]; split; [exact Hr|].
    rewrite (@cleanText_between x a run b y Ha Hb Hrun), Hw, Hr.
    destruct run as [|c run]; [congruence|].
    rewrite <- app_assoc; reflexivity.
  - intros x a b y Ha Hb.
    destruct (@cleanText_ends x a Ha) as [w Hw].
    destruct (@cleanText_starts b y Hb) as [r Hr].
    exists w, r; split; [exact Hw|]; split; [exact Hr|].
    change (x ++ a :: b :: y) with (x ++ a :: [] ++ b :: y).
    rewrite (@cleanText_between x a [] b y Ha Hb eq_refl), Hw, Hr.
    rewrite <- app_assoc; reflexivity.
Qed.

Lemma heading_whitespace_normalised_witness :
  (exists r,
     extractDetails joes_page sample_url = Some r
     /\ name r = JSString (str "Joe's Cafe"))
  /\ (exists w r,
        cleanText (str "Joe'" ++ 115%N :: [10%N; 13%N; 9%N] ++ 67%N :: str "afe")
        = w ++ 115%N :: 32%N :: 67%N :: r).
Proof.
  split.
  - apply (proj1 heading_whitespace_normalised joes_page sample_url).
    reflexivity.
  - destruct (proj1 (proj2 (proj2 heading_whitespace_normalised))
                (str "Joe'") 115%N [10%N; 13%N; 9%N] 67%N (str "afe")
                eq_refl eq_refl ltac:(discriminate) eq_refl)
      as [w [r [_ [_ H]]]].
    exists w, r; exact H.
Defined.

(** ** Rating and reviews *)

Lemma take_while_forallb (p : jschar -> bool) (s : jstring) :
  forallb p (take_while p s) = true.
Proof.
  induction s as [|c s IH]; simpl; [reflexivity|].
  destruct (p c) eqn:E; simpl; [rewrite E; exact IH | reflexivity].
Qed.

Lemma take_drop_while (p : jschar -> bool) (s : jstring) :
  take_while p s ++ drop_while p s = s.
Proof.
  induction s as [|c s IH]; simpl; [reflexivity|].
  destruct (p c); simpl; [f_equal; exact IH | reflexivity].
Qed.

Lemma take_while_app (p : jschar -> bool) (run rest : jstring) :
  forallb p run = true ->
  take_while p (run ++ rest) = run ++ take_while p rest.
Proof.
  induction run as [|c run IH]; simpl; [reflexivity|].
  rewrite andb_true_iff; intros [-> H]; f_equal; apply IH, H.
Qed.

Lemma first_run_class (cls : jschar -> bool) (s r : jstring) :
  first_run cls s = Some r -> forallb cls r = true /\ r <> [].
Proof.
  unfold first_run.
  pose proof (take_while_forallb cls (drop_while (fun c => negb (cls c)) s))
    as H.
  destruct (take_while cls (drop_while (fun c => negb (cls c)) s));
    [discriminate|].
  intros E; inversion E; subst; split; [exact H | discriminate].
Qed.

Lemma remove_commas_digits (m : jstring) :
  forallb is_digit_or_comma m = true ->
  forallb is_digit (remove_commas m) = true.
Proof.
  unfold remove_commas, is_digit_or_comma.
  induction m as [|c m IH]; simpl; [reflexivity|].
  rewrite andb_true_iff; intros [Hc Hm].
  destruct (N.eqb c 44) eqn:E; simpl; [apply IH, Hm|].
  rewrite orb_false_r in Hc; rewrite Hc; apply IH, Hm.
Qed.

Lemma reviews_of_digits (doc : element) :
  forallb is_digit (reviews_of doc) = true.
Proof.
  unfold reviews_of.
  destruct (querySelector doc sel_reviews) as [el|]; [|reflexivity].
  destruct (first_run is_digit_or_comma (attribute_or_empty el "aria-label"))
    as [m|] eqn:E; [|reflexivity].
  apply remove_commas_digits, (first_run_class _ _ E).
Qed.

(** C3, as stated, fails: where the label of the reviews element is
    ["1,234 reviews"] the field holds the string ["1234"], not the number
    1234, and where there is no such element it holds the string ["0"], not
    the number 0; where the first run of digits and commas of the label is
    a comma, the field holds the empty string. *)
Lemma reviews_is_a_string_not_a_number :
  (exists r,
     extractDetails rated_page sample_url = Some r
     /\ reviews r = JSString (str "1234")
     /\ reviews r <> JSNumber 1234)
  /\ (exists r,
        extractDetails acme_page sample_url = Some r
        /\ reviews r = JSString (str "0")
        /\ reviews r <> JSNumber 0)
  /\ (exists r,
        extractDetails comma_first_page sample_url = Some r
        /\ reviews r = JSString []
        /\ forall z, reviews r <> JSNumber z).
Proof.
  split; [|split]; eexists; (split; [reflexivity|]); simpl;
    (split; [reflexivity | discriminate]).
Qed.

(** C3, amended: a rating element labelled ["4.5 stars"] yields the rating
    ["4.5"], the first token of the label, and its absence ["N/A"]; a reviews
    element labelled ["1,234 reviews"] yields the string ["1234"], the first
    run of digits and commas with the commas removed, and its absence the
    string ["0"]; the reviews field is always a string of decimal digits,
    which may be empty. *)
Theorem rating_and_reviews_parsing
    (doc : element) (currentUrl : jstring) (r : BusinessRecord) :
  extractDetails doc currentUrl = Some r ->
  (querySelector doc sel_rating = None -> rating r = JSString NA)
  /\ (forall el,
        querySelector doc sel_rating = Some el ->
        getAttribute el "aria-label" = Some (str "4.5 stars") ->
        rating r = JSString (str "4.5"))
  /\ (forall el label,
        querySelector doc sel_rating = Some el ->
        getAttribute el "aria-label" = Some label ->
        rating r = JSString (first_token label))
  /\ (querySelector doc sel_reviews = None -> reviews r = JSString (str "0"))
  /\ (forall el,
        querySelector doc sel_reviews = Some el ->
        getAttribute el "aria-label" = Some (str "1,234 reviews") ->
        reviews r = JSString (str "1234"))
  /\ (exists digits,
        reviews r = JSString digits /\ forallb is_digit digits = true).
Proof.
  intros Hr; apply extractDetails_Some in Hr; subst r; simpl.
  unfold rating_of, reviews_of, attribute_or_empty.
  repeat split.
  - intros ->; reflexivity.
  - intros el -> ->; reflexivity.
  - intros el label -> ->; reflexivity.
  - intros ->; reflexivity.
  - intros el -> ->; reflexivity.
  - exists (reviews_of doc); split; [reflexivity | apply reviews_of_digits].
Qed.

Lemma rating_and_reviews_parsing_witness :
  exists r,
    extractDetails rated_page sample_url = Some r
    /\ rating r = JSString (str "4.5")
    /\ reviews r = JSString (str "1234").
Proof.
  eexists; split; [reflexivity|].
  destruct (@rating_and_reviews_parsing rated_page sample_url _ eq_refl)
    as [_ [H1 [_ [_ [H2 _]]]]].
  split; [eapply H1 | eapply H2]; reflexivity.
Defined.

(** ** The address and phone filters *)

Lemma has_run_iff (cls : jschar -> bool) (n : nat) (s : jstring) :
  has_run cls n s = true
  <-> exists before run rest,
        s = before ++ run ++ rest
        /\ n <= length run /\ forallb cls run = true.
Proof.
  split.
  - induction s as [|c s IH].
    + simpl; rewrite orb_false_r; intros H; apply Nat.leb_le in H.
      exists [], [], []; simpl; auto.
    + simpl has_run; rewrite orb_true_iff; intros [H | H].
      * apply Nat.leb_le in H.
        exists [], (take_while cls (c :: s)), (drop_while cls (c :: s)).
        rewrite take_drop_while; repeat split; auto.
        apply take_while_forallb.
      * destruct (IH H) as [before [run [rest [Hs [Hn Hrun]]]]].
        exists (c :: before), run, rest; simpl; rewrite Hs; auto.
  - intros [before [run [rest [Hs [Hn Hrun]]]]]; subst s.
    induction before as [|c before IH].
    + simpl app.
      assert (H : Nat.leb n (length (take_while cls (run ++ rest))) = true).
      { apply Nat.leb_le; rewrite take_while_app, length_app by exact Hrun.
        lia. }
      destruct (run ++ rest); simpl in *; rewrite H; reflexivity.
    + simpl; rewrite IH; apply orb_true_r.
Qed.

Lemma find_last_accepted (P : element -> bool) (l : list element) el :
  find P (rev l) = Some el -> In el l /\ P el = true.
Proof.
  intros H; apply find_some in H; destruct H as [Hin HP].
  split; [apply in_rev, Hin | exact HP].
Qed.

(** C6: an address candidate whose text, the label prefix stripped, has at
    most 5 characters is rejected, it leaves the address as it found it,
    ["N/A"] included; one with more than 5 characters is stored. So the
    address of a record is ["N/A"] where every candidate of the page is that
    short, and any other address is a candidate longer than 5 characters. *)
Theorem address_filter :
  (forall vars el,
     is_address_candidate el = true ->
     (length (possibleAddr el) <= 5 ->
      v_address (scan_element vars el) = v_address vars)
     /\ (5 < length (possibleAddr el) ->
         v_address (scan_element vars el) = possibleAddr el))
  /\ (forall vars el,
        is_address_candidate el = false ->
        v_address (scan_element vars el) = v_address vars)
  /\ (forall doc currentUrl r,
        extractDetails doc currentUrl = Some r ->
        (forall el, In el (querySelectorAll doc sel_scan) ->
                    is_address_candidate el = true ->
                    length (possibleAddr el) <= 5) ->
        address r = JSString NA)
  /\ (forall doc currentUrl r,
        extractDetails doc currentUrl = Some r ->
        address r <> JSString NA ->
        exists el,
          In el (querySelectorAll doc sel_scan)
          /\ is_address_candidate el = true
          /\ 5 < length (possibleAddr el)
          /\ address r = JSString (possibleAddr el)).
Proof.
  split; [|split; [|split]].
  - intros vars el Hc; rewrite scan_element_address.
    unfold address_accepted; rewrite Hc; simpl.
    split; intros H.
    + apply Nat.ltb_ge in H; rewrite H; reflexivity.
    + apply Nat.ltb_lt in H; rewrite H; reflexivity.
  - intros vars el Hc; rewrite scan_element_address.
    unfold address_accepted; rewrite Hc; reflexivity.
  - intros doc currentUrl r Hr Hshort.
    apply extractDetails_Some in Hr; subst r; simpl.
    rewrite scan_address, find_none_forall; [reflexivity|].
    intros el Hin; unfold address_accepted.
    destruct (is_address_candidate el) eqn:Hc; [|reflexivity].
    simpl; apply Nat.ltb_ge, (Hshort el Hin Hc).
  - intros doc currentUrl r Hr Hna.
    apply extractDetails_Some in Hr; subst r; simpl in *.
    rewrite scan_address in *.
    destruct (find address_accepted (rev (querySelectorAll doc sel_scan)))
      as [el|] eqn:E; [|contradiction].
    apply find_last_accepted in E; destruct E as [Hin Hacc].
    unfold address_accepted in Hacc; apply andb_true_iff in Hacc.
    destruct Hacc as [Hc Hlen]; apply Nat.ltb_lt in Hlen.
    exists el; auto.
Qed.

Lemma address_filter_witness :
  (exists r,
     extractDetails short_address_page sample_url = Some r
     /\ address r = JSString NA)
  /\ (exists r el,
        extractDetails long_address_page sample_url = Some r
        /\ In el (querySelectorAll long_address_page sel_scan)
        /\ address r = JSString (possibleAddr el)
        /\ possibleAddr el = str "12 Elm Street, Agra").
Proof.
  split.
  - eexists; split; [reflexivity|].
    apply (proj1 (proj2 (proj2 address_filter))
             short_address_page sample_url _ eq_refl).
    intros el [<- | []] _; vm_compute; lia.
  - destruct (proj2 (proj2 (proj2 address_filter))
                long_address_page sample_url _ eq_refl)
      as [el [Hin [_ [_ Ha]]]]; [discriminate|].
    eexists; exists el; split; [reflexivity|].
    split; [exact Hin|]; split; [exact Ha|].
    destruct Hin as [<- | []]; reflexivity.
Defined.

(** C7: a phone candidate is stored only if its text, the label prefix
    stripped, matches the pattern, that is holds a run of at least 5
    characters among the digits, [+], [-], [(], [)] and whitespace; otherwise
    the phone is left as found. The text ["Call us now"] does not match and
    leaves ["N/A"]; ["+1 (555) 123-4567"] matches and is stored. *)
Theorem phone_filter :
  (forall s,
     phone_pattern s = true
     <-> exists before run rest,
           s = before ++ run ++ rest
           /\ 5 <= length run /\ forallb is_phone_char run = true)
  /\ (forall vars el,
        is_phone_candidate el = true ->
        (phone_pattern (possiblePhone el) = false ->
         v_phone (scan_element vars el) = v_phone vars)
        /\ (phone_pattern (possiblePhone el) = true ->
            v_phone (scan_element vars el) = possiblePhone el))
  /\ (forall doc currentUrl r,
        extractDetails doc currentUrl = Some r ->
        phone r <> JSString NA ->
        exists el,
          In el (querySelectorAll doc sel_scan)
          /\ is_phone_candidate el = true
          /\ phone_pattern (possiblePhone el) = true
          /\ phone r = JSString (possiblePhone el))
  /\ phone_pattern (str "Call us now") = false
  /\ phone_pattern (str "+1 (555) 123-4567") = true
  /\ (exists r el,
        extractDetails call_us_page sample_url = Some r
        /\ querySelectorAll call_us_page sel_scan = [el]
        /\ is_phone_candidate el = true
        /\ possiblePhone el = str "Call us now"
        /\ phone r = JSString NA)
  /\ (exists r el,
        extractDetails phone_page sample_url = Some r
        /\ querySelectorAll phone_page sel_scan = [el]
        /\ is_phone_candidate el = true
        /\ possiblePhone el = str "+1 (555) 123-4567"
        /\ phone r = JSString (str "+1 (555) 123-4567")).
Proof.
  split; [intros s; apply has_run_iff|].
  split.
  { intros vars el Hc; rewrite scan_element_phone.
    unfold phone_accepted; rewrite Hc; simpl.
    split; intros ->; reflexivity. }
  split.
  { intros doc currentUrl r Hr Hna.
    apply extractDetails_Some in Hr; subst r; simpl in *.
    rewrite scan_phone in *.
    destruct (find phone_accepted (rev (querySelectorAll doc sel_scan)))
      as [el|] eqn:E; [|contradiction].
    apply find_last_accepted in E; destruct E as [Hin Hacc].
    unfold phone_accepted in Hacc; apply andb_true_iff in Hacc.
    destruct Hacc as [Hc Hp]; exists el; auto. }
  split; [reflexivity|].
  split; [reflexivity|].
  split; eexists; eexists; repeat split; reflexivity.
Qed.

Lemma phone_filter_witness :
  exists r el,
    extractDetails phone_page sample_url = Some r
    /\ In el (querySelectorAll phone_page sel_scan)
    /\ phone_pattern (possiblePhone el) = true
    /\ phone r = JSString (possiblePhone el).
Proof.
  destruct (proj1 (proj2 (proj2 phone_filter))
              phone_page sample_url _ eq_refl)
    as [el [Hin [_ [Hp Hr]]]]; [discriminate|].
  eexists; exists el; split; [reflexivity|].
  repeat split; assumption.
Defined.

(** ** The driver *)

Lemma app_one_neq (A : Type) (l : list A) (x : A) : l <> l ++ [x].
Proof.
  intros H; apply (f_equal (@length A)) in H.
  rewrite length_app in H; simpl in H; lia.
Qed.

(** C9: the driver appends a result exactly when it is not [null], its name
    is not empty and its name is not the string ["Google Maps"]; otherwise
    the collection is left as it is. The comparison is of whole strings and
    sensitive to case: another casing, or a name with ["Google Maps"]
    inside, is kept. *)
Theorem collect_result_iff :
  (forall extractedData data d,
     collect_result extractedData data = extractedData ++ [d]
     <-> data = Some d
         /\ truthy (name d) = true
         /\ name d <> JSString (str "Google Maps"))
  /\ (forall extractedData data,
        collect_result extractedData data = extractedData
        <-> ~ exists d,
              data = Some d
              /\ truthy (name d) = true
              /\ name d <> JSString (str "Google Maps"))
  /\ (forall extractedData d s,
        name d = JSString s ->
        (collect_result extractedData (Some d) = extractedData ++ [d]
         <-> s <> [] /\ s <> str "Google Maps"))
  /\ (forall extractedData,
        let kept (n : string) :=
          collect_result extractedData (Some (record_named (JSString (str n))))
          = extractedData ++ [record_named (JSString (str n))] in
        kept "google maps"%string /\ kept "GOOGLE MAPS"%string /\ kept "Google maps"%string
        /\ kept "Google Maps Cafe"%string /\ kept "Cafe near Google Maps"%string
        /\ kept " Google Maps"%string /\ ~ kept "Google Maps"%string /\ ~ kept ""%string).
Proof.
  assert (Hkeep : forall d,
             truthy (name d)
             && negb (jsval_eqb (name d) (JSString (str "Google Maps")))
             = true
             <-> truthy (name d) = true
                 /\ name d <> JSString (str "Google Maps")).
  { intros d; rewrite andb_true_iff, negb_true_iff.
    destruct (name d) as [s|z]; simpl.
    - rewrite jstring_eqb_neq; split; intros [H1 H2]; split; auto; congruence.
    - split; intros [H1 H2]; split; auto; discriminate. }
  assert (Hiff : forall ed data d,
             collect_result ed data = ed ++ [d]
             <-> data = Some d /\ truthy (name d) = true
                 /\ name d <> JSString (str "Google Maps")).
  { intros ed data d; unfold collect_result; split.
    - destruct data as [d'|]; [|intros H; destruct (@app_one_neq _ _ _ H)].
      destruct (truthy (name d')
                && negb (jsval_eqb (name d') (JSString (str "Google Maps"))))
        eqn:E; [|intros H; destruct (@app_one_neq _ _ _ H)].
      intros H; apply app_inv_head in H; inversion H; subst d'.
      split; [reflexivity | apply Hkeep, E].
    - intros [-> H]; apply Hkeep in H; rewrite H; reflexivity. }
  split; [exact Hiff|].
  split.
  { intros ed data; unfold collect_result; split.
    - intros H [d [-> Hd]]; apply Hkeep in Hd; rewrite Hd in H.
      symmetry in H; exact (@app_one_neq _ _ _ H).
    - intros H; destruct data as [d|]; [|reflexivity].
      destruct (truthy (name d)
                && negb (jsval_eqb (name d) (JSString (str "Google Maps"))))
        eqn:E; [|reflexivity].
      exfalso; apply H; exists d; split; [reflexivity | apply Hkeep, E]. }
  split.
  { intros ed d s Hs; rewrite Hiff, Hs; simpl.
    destruct s; split.
    - intros [_ [H _]]; discriminate.
    - intros [H _]; congruence.
    - intros [_ [_ H]]; split; [discriminate | congruence].
    - intros [_ H]; repeat split; congruence. }
  intros ed kept; unfold kept.
  repeat split; try reflexivity;
    intros H; exact (@app_one_neq _ ed _ H).
Qed.

Lemma collect_result_iff_witness :
  collect_result [] (Some (record_named (JSString (str "google maps"))))
  = [record_named (JSString (str "google maps"))].
Proof.
  apply (proj2 (proj1 (proj2 (proj2 collect_result_iff))
                  [] (record_named (JSString (str "google maps")))
                  (str "google maps") eq_refl)).
  split; discriminate.
Defined.

(** ** The scroll loop *)

Section LoopFacts.

Variable World : Type.
Variable document : World -> element.
Variable scrollHeight : World -> element -> Z.
Variable scrollBy : element -> Z -> Z -> World -> World.
Variable wait : Z -> World -> World.
Variable container : element.
Variable max : Z.

Local Abbreviation body :=
  (loop_body document scrollHeight scrollBy wait container max).
Local Abbreviation loop fuel :=
  (scroll_loop document scrollHeight scrollBy wait fuel container max).
Local Abbreviation state_after k :=
  (after document scrollHeight scrollBy wait k container max).
Local Abbreviation is_stalled :=
  (stalled scrollHeight scrollBy wait container).

Lemma body_iterations (st : loop_state World) :
  iterations (snd (body st)) = S (iterations st).
Proof.
  unfold loop_body.
  destruct (Z.leb max _); [reflexivity|].
  destruct (Z.eqb _ _); reflexivity.
Qed.

Lemma body_stalled (st : loop_state World) :
  is_stalled st ->
  fst (body st) = Nat.ltb 8 (S (retries st))
                  || Z.leb max
                       (Z.of_nat (count_of document
                                    (settled scrollBy wait container
                                       (world st))))
  /\ (fst (body st) = false -> retries (snd (body st)) = S (retries st)).
Proof.
  unfold stalled, loop_body; intros H.
  destruct (Z.leb max _); simpl; [rewrite orb_true_r; split; congruence|].
  rewrite H, Z.eqb_refl; simpl; rewrite orb_false_r; auto.
Qed.


Lemma after_S (k : nat) (st : loop_state World) :
  state_after (S k) st = snd (body (state_after k st)).
Proof.
  revert st; induction k as [|k IH]; intros st; [reflexivity|].
  exact (IH (snd (body st))).
Qed.

Lemma after_add (j i : nat) (st : loop_state World) :
  state_after (j + i) st = state_after i (state_after j st).
Proof.
  revert st; induction j as [|j IH]; intros st; [reflexivity|].
  simpl; apply IH.
Qed.

Lemma after_iterations (k : nat) (st : loop_state World) :
  iterations (state_after k st) = iterations st + k.
Proof.
  induction k as [|k IH]; [simpl; lia|].
  rewrite after_S, body_iterations, IH; lia.
Qed.

(** More fuel does not change a result. *)
Lemma scroll_loop_more (k d : nat) (st st' : loop_state World) :
  loop k st = Some st' -> loop (k + d) st = Some st'.
Proof.
  revert st; induction k as [|k IH]; intros st; simpl; [discriminate|].
  destruct (body st) as [[|] st1]; [auto | apply IH].
Qed.

(** The loop stops at the first iteration that breaks. *)
Lemma stops_within (k : nat) (st : loop_state World) :
  (exists i, i < k /\ fst (body (state_after i st)) = true) ->
  exists st',
    loop k st = Some st'
    /\ iterations st < iterations st' <= iterations st + k.
Proof.
  revert st; induction k as [|k IH]; intros st [i [Hi Hb]]; [lia|].
  simpl scroll_loop.
  pose proof (body_iterations st) as Hn.
  destruct (body st) as [[|] st1] eqn:E; simpl in Hn.
  - exists st1; split; [reflexivity | lia].
  - destruct i as [|i]; [simpl in Hb; rewrite E in Hb; discriminate|].
    simpl in Hb; rewrite E in Hb; simpl in Hb.
    destruct (IH st1) as [st' [H1 H2]]; [exists i; split; [lia | exact Hb]|].
    exists st'; split; [exact H1 | lia].
Qed.

(** Through stalled iterations that do not break, [retries] counts up. *)
Lemma stalled_run (m : nat) (st : loop_state World) :
  (forall i, i < m -> is_stalled (state_after i st)) ->
  (exists i, i < m /\ fst (body (state_after i st)) = true)
  \/ retries (state_after m st) = retries st + m.
Proof.
  induction m as [|m IH]; intros H; [right; simpl; lia|].
  destruct IH as [[i [Hi Hb]] | Hr]; [intros i Hi; apply H; lia | |].
  - left; exists i; split; [lia | exact Hb].
  - destruct (fst (body (state_after m st))) eqn:E.
    + left; exists m; split; [lia | exact E].
    + right; rewrite after_S.
      destruct (body_stalled (H m (Nat.lt_succ_diag_r m))) as [_ Hs].
      rewrite (Hs E), Hr; lia.
Qed.

(** Nine stalled iterations in a row end the loop, wherever they begin. *)
Lemma nine_stalled_break (j : nat) (st : loop_state World) :
  (forall i, j <= i < j + 9 -> is_stalled (state_after i st)) ->
  exists i, i < j + 9 /\ fst (body (state_after i st)) = true.
Proof.
  intros H.
  destruct (@stalled_run 8 (state_after j st)) as [[i [Hi Hb]] | Hr].
  - intros i Hi; rewrite <- after_add; apply H; lia.
  - exists (j + i); split; [lia | rewrite after_add; exact Hb].
  - exists (j + 8); split; [lia|].
    rewrite after_add.
    assert (Hs : is_stalled (state_after 8 (state_after j st)))
      by (rewrite <- after_add; apply H; lia).
    destruct (body_stalled Hs) as [Hf _]; rewrite Hf.
    apply orb_true_iff; left; apply Nat.ltb_lt; lia.
Qed.

(** The extent of the container at the start of an iteration. *)
Local Abbreviation extent st := (scrollHeight (world st) container).





End LoopFacts.

(** ** The harvest *)

Lemma existsb_eqb_In (h : jstring) (urls : list jstring) :
  existsb (jstring_eqb h) urls = true <-> In h urls.
Proof.
  rewrite existsb_exists; split.
  - intros [x [Hin Hx]]; apply jstring_eqb_eq in Hx; subst; exact Hin.
  - intros H; exists h; split; [exact H | apply jstring_eqb_refl].
Qed.

Lemma index_of_bound (x : jstring) (l : list jstring) (p : nat) :
  index_of x l = Some p -> p < length l.
Proof.
  revert p; induction l as [|y l IH]; intros p; simpl; [discriminate|].
  destruct (jstring_eqb x y); [intros H; inversion H; lia|].
  destruct (index_of x l) as [i|]; [|discriminate].
  intros H; inversion H; specialize (IH i eq_refl); lia.
Qed.

Lemma index_of_In (x : jstring) (l : list jstring) :
  In x l -> exists p, index_of x l = Some p.
Proof.
  induction l as [|y l IH]; simpl; [tauto|].
  destruct (jstring_eqb x y) eqn:E; [intros _; exists 0; reflexivity|].
  intros [H | H].
  - subst y; rewrite jstring_eqb_refl in E; discriminate.
  - destruct (IH H) as [p Hp]; rewrite Hp; exists (S p); reflexivity.
Qed.

Lemma index_of_app_l (x : jstring) (l m : list jstring) (p : nat) :
  index_of x l = Some p -> index_of x (l ++ m) = Some p.
Proof.
  revert p; induction l as [|y l IH]; intros p; simpl; [discriminate|].
  destruct (jstring_eqb x y); [auto|].
  destruct (index_of x l) as [i|]; [|discriminate].
  rewrite (IH i eq_refl); auto.
Qed.

Lemma index_of_snoc_new (x : jstring) (l : list jstring) :
  ~ In x l -> index_of x (l ++ [x]) = Some (length l).
Proof.
  induction l as [|y l IH]; simpl; intros H.
  - rewrite jstring_eqb_refl; reflexivity.
  - destruct (jstring_eqb x y) eqn:E.
    + apply jstring_eqb_eq in E; subst; tauto.
    + rewrite IH by tauto; reflexivity.
Qed.

(** The set built from [l] holds the members of [l], each once, in the
    order of their first occurrence. *)
Lemma Set_of_spec (l : list jstring) :
  NoDup (fold_left Set_add l [])
  /\ (forall x, In x (fold_left Set_add l []) <-> In x l)
  /\ first_seen_order l (fold_left Set_add l []).
Proof.
  induction l as [|h l [Hnd [Hin Hord]]] using rev_ind.
  - simpl; repeat split; try tauto; [constructor|].
    intros i j a b _ H; destruct i; discriminate.
  - rewrite fold_left_app; simpl.
    set (S := fold_left Set_add l []) in *.
    assert (Hold : first_seen_order (l ++ [h]) S).
    { intros i j a b Hij Ha Hb.
      destruct (Hord i j a b Hij Ha Hb) as [p [q [Hp [Hq Hpq]]]].
      exists p, q; repeat split; auto using index_of_app_l. }
    unfold Set_add; destruct (existsb (jstring_eqb h) S) eqn:E.
    + apply existsb_eqb_In in E.
      repeat split; auto.
      * intros H; apply in_or_app; left; apply Hin, H.
      * intros H; apply in_app_or in H; destruct H as [H | [<- | []]];
          [apply Hin, H | exact E].
    + assert (HnS : ~ In h S)
        by (rewrite <- existsb_eqb_In, E; discriminate).
      assert (Hnl : ~ In h l) by (rewrite <- Hin; exact HnS).
      repeat split.
      * apply NoDup_app; [exact Hnd | repeat constructor; simpl; tauto|].
        intros x Hx [<- | []]; exact (HnS Hx).
      * rewrite !in_app_iff, Hin; tauto.
      * rewrite !in_app_iff, Hin; tauto.
      * intros i j a b Hij Ha Hb.
        destruct (Nat.lt_ge_cases j (length S)) as [Hj | Hj].
        { rewrite nth_error_app1 in Ha, Hb by lia.
          apply (Hold i j a b Hij Ha Hb). }
        assert (Hjl : j < length (S ++ [h]))
          by (apply nth_error_Some; congruence).
        rewrite length_app in Hjl; simpl in Hjl.
        assert (j = length S) by lia; subst j.
        rewrite nth_error_app2, Nat.sub_diag in Hb by lia.
        simpl in Hb; inversion Hb; subst b.
        rewrite nth_error_app1 in Ha by lia.
        apply nth_error_In, Hin in Ha.
        destruct (index_of_In _ _ Ha) as [p Hp].
        exists p, (length l); repeat split.
        { apply index_of_app_l, Hp. }
        { apply index_of_snoc_new, Hnl. }
        { apply (index_of_bound _ _ Hp). }
Qed.

Lemma slice_from_start (A : Type) (l : list A) (stop : Z) :
  slice l 0 stop = firstn (relative_index (length l) stop) l.
Proof.
  unfold slice; simpl; rewrite Nat.sub_0_r; reflexivity.
Qed.

Lemma relative_index_nonneg (len : nat) (i : Z) :
  (0 <= i)%Z -> relative_index len i = Nat.min (Z.to_nat i) len.
Proof.
  unfold relative_index; intros H.
  destruct (Z.ltb i 0) eqn:E; [apply Z.ltb_lt in E; lia | reflexivity].
Qed.

Lemma NoDup_firstn (A : Type) (n : nat) (l : list A) :
  NoDup l -> NoDup (firstn n l).
Proof.
  intros H; rewrite <- (firstn_skipn n l) in H.
  apply NoDup_app_remove_r in H; exact H.
Qed.

Lemma In_firstn (A : Type) (n : nat) (l : list A) (x : A) :
  In x (firstn n l) -> In x l.
Proof.
  intros H; rewrite <- (firstn_skipn n l); apply in_or_app; left; exact H.
Qed.

Lemma nth_error_firstn_Some (A : Type) (n i : nat) (l : list A) (x : A) :
  nth_error (firstn n l) i = Some x -> nth_error l i = Some x /\ i < n.
Proof.
  intros H.
  assert (Hi : i < length (firstn n l)) by (apply nth_error_Some; congruence).
  rewrite length_firstn in Hi.
  rewrite <- (firstn_skipn n l), nth_error_app1
    by (rewrite length_firstn; exact Hi).
  split; [exact H | lia].
Qed.

Lemma first_seen_order_firstn (seen out : list jstring) (n : nat) :
  first_seen_order seen out -> first_seen_order seen (firstn n out).
Proof.
  intros H i j a b Hij Ha Hb.
  apply nth_error_firstn_Some in Ha, Hb.
  apply (H i j a b Hij (proj1 Ha) (proj1 Hb)).
Qed.

Lemma index_of_Some_In (x : jstring) (l : list jstring) (p : nat) :
  index_of x l = Some p -> In x l.
Proof.
  revert p; induction l as [|y l IH]; intros p; simpl; [discriminate|].
  destruct (jstring_eqb x y) eqn:E.
  - apply jstring_eqb_eq in E; auto.
  - destruct (index_of x l) as [i|]; [|discriminate].
    intros _; right; apply (IH i eq_refl).
Qed.

Lemma nth_error_firstn_lt (A : Type) (n i : nat) (l : list A) (x : A) :
  i < n -> nth_error l i = Some x -> nth_error (firstn n l) i = Some x.
Proof.
  intros Hi H.
  assert (Hl : i < length l) by (apply nth_error_Some; congruence).
  rewrite <- (firstn_skipn n l), nth_error_app1 in H
    by (rewrite length_firstn; lia).
  exact H.
Qed.

(** Nothing seen earlier than a member of a prefix of the set is missing
    from that prefix. *)
Lemma Set_prefix_closed (seen : list jstring) (n : nat) (a b : jstring)
    (p q : nat) :
  In b (firstn n (fold_left Set_add seen [])) ->
  index_of a seen = Some p -> index_of b seen = Some q -> p < q ->
  In a (firstn n (fold_left Set_add seen [])).
Proof.
  destruct (Set_of_spec seen) as [_ [Hin Hord]].
  set (S := fold_left Set_add seen []) in *.
  intros Hb Hp Hq Hpq.
  apply In_nth_error in Hb; destruct Hb as [j Hj].
  apply nth_error_firstn_Some in Hj; destruct Hj as [Hj Hjn].
  assert (Ha : In a S) by (apply Hin, (index_of_Some_In _ _ Hp)).
  apply In_nth_error in Ha; destruct Ha as [i Hi].
  destruct (Nat.lt_trichotomy i j) as [Hij | [Hij | Hij]].
  - apply (nth_error_In _ i), nth_error_firstn_lt; [lia | exact Hi].
  - subst j; rewrite Hi in Hj; inversion Hj; subst b.
    rewrite Hp in Hq; inversion Hq; lia.
  - destruct (Hord j i b a Hij Hj Hi) as [p' [q' [Hp' [Hq' Hlt]]]].
    rewrite Hp in Hq'; rewrite Hq in Hp'.
    inversion Hq'; inversion Hp'; lia.
Qed.

Lemma matches_ancestors_nil (ancestors : list element) :
  matches_ancestors ancestors [] = true.
Proof. destruct ancestors; reflexivity. Qed.

Lemma attr_contains_holds (el : element) (n : string) (v : jstring) :
  v <> [] ->
  attr_holds el (AttrContains n v) = true
  <-> exists target, getAttribute el n = Some target /\ includes target v = true.
Proof.
  intros Hv; unfold attr_holds.
  destruct (getAttribute el n) as [t|]; destruct v as [|c v]; try tauto; split.
  - intros H; exists t; auto.
  - intros [t' [H1 H2]]; inversion H1; subst; exact H2.
  - discriminate.
  - intros [t' [H _]]; discriminate.
Qed.

(** A place link is an anchor, anywhere in the document, whose [href]
    attribute holds ["/maps/place/"]. *)
Lemma place_link_In (doc : element) (el : element) :
  In el (querySelectorAll doc sel_place_link)
  <-> exists ancestors,
        In (ancestors, el) (walk [] doc)
        /\ tagName el = "A"%string
        /\ exists target,
             getAttribute el "href" = Some target
             /\ includes target (str "/maps/place/") = true.
Proof.
  rewrite querySelectorAll_In.
  assert (H : forall ancs,
             matches sel_place_link ancs el = true
             <-> tagName el = "A"%string
                 /\ exists target,
                      getAttribute el "href" = Some target
                      /\ includes target (str "/maps/place/") = true).
  { intros ancs.
    change (matches sel_place_link ancs el)
      with ((String.eqb "A" (tagName el)
             && (attr_holds el (AttrContains "href" (str "/maps/place/"))
                 && true))
            && matches_ancestors ancs [] || false).
    rewrite matches_ancestors_nil, orb_false_r, !andb_true_r, andb_true_iff.
    rewrite String.eqb_eq, attr_contains_holds by discriminate.
    split; intros [H1 H2]; split; auto. }
  split; intros [ancs [H1 H2]]; exists ancs; split; auto; apply (H ancs), H2.
Qed.

Section HarvestFacts.

Variable World : Type.
Variable document : World -> element.

(** What [collectUrls] returns of a page, whatever [maxItems] is. *)
Lemma harvest_prefix (maxItems : Z) (w : World) :
  NoDup (harvest document maxItems w)
  /\ (forall u, In u (harvest document maxItems w) ->
                In u (hrefs_of document w))
  /\ first_seen_order (hrefs_of document w) (harvest document maxItems w)
  /\ (forall a b p q,
        In b (harvest document maxItems w) ->
        index_of a (hrefs_of document w) = Some p ->
        index_of b (hrefs_of document w) = Some q ->
        p < q -> In a (harvest document maxItems w)).
Proof.
  unfold harvest; rewrite slice_from_start.
  destruct (Set_of_spec (hrefs_of document w)) as [Hnd [Hin Hord]].
  repeat split.
  - apply NoDup_firstn, Hnd.
  - intros u H; apply Hin, (In_firstn _ _ _ H).
  - apply first_seen_order_firstn, Hord.
  - intros a b p q; apply Set_prefix_closed.
Qed.

(** With a bound that is not negative, the result has at most that many
    members, and when it has fewer nothing was cut off. *)
Lemma harvest_bounded (maxItems : Z) (w : World) :
  (0 <= maxItems)%Z ->
  (Z.of_nat (length (harvest document maxItems w)) <= maxItems)%Z
  /\ ((Z.of_nat (length (harvest document maxItems w)) < maxItems)%Z ->
      forall u, In u (hrefs_of document w) ->
                In u (harvest document maxItems w)).
Proof.
  intros Hmax; unfold harvest.
  rewrite slice_from_start, relative_index_nonneg by exact Hmax.
  rewrite length_firstn.
  set (S := fold_left Set_add (hrefs_of document w) []).
  split; [lia|].
  intros Hlt u Hu.
  rewrite firstn_all2 by lia.
  apply (proj1 (proj2 (Set_of_spec (hrefs_of document w)))), Hu.
Qed.

End HarvestFacts.

(** ** Discovery *)

(** C1: for every [maxCount >= 0] and whatever place links the page shows,
    the array [collectUrls] returns has no duplicate, has at most [maxCount]
    members, and lists targets of the page's place links in the order in
    which they are first seen, none seen before a listed one left out. *)
Theorem collectUrls_unique_bounded_ordered
    (World : Type) (document : World -> element)
    (scrollHeight : World -> element -> Z)
    (scrollBy : element -> Z -> Z -> World -> World)
    (wait : Z -> World -> World)
    (fuel : nat) (w : World) (selector : selector) (maxCount : Z)
    (urls : list jstring) (st : loop_state World) :
  (0 <= maxCount)%Z ->
  collectUrls document scrollHeight scrollBy wait fuel w selector maxCount
  = Some (urls, st) ->
  NoDup urls
  /\ (Z.of_nat (length urls) <= maxCount)%Z
  /\ (forall u, In u urls -> In u (hrefs_of document (world st)))
  /\ first_seen_order (hrefs_of document (world st)) urls
  /\ (forall a b p q,
        In b urls ->
        index_of a (hrefs_of document (world st)) = Some p ->
        index_of b (hrefs_of document (world st)) = Some q ->
        p < q -> In a urls)
  /\ ((Z.of_nat (length urls) < maxCount)%Z ->
      forall u, In u (hrefs_of document (world st)) -> In u urls).
Proof.
  intros Hmax H; unfold collectUrls in H.
  destruct (scroll_to_end document scrollHeight scrollBy wait fuel selector
              maxCount w) as [st'|]; [|discriminate].
  inversion H; subst; clear H.
  destruct (harvest_prefix document maxCount (world st))
    as [H1 [H2 [H3 H4]]].
  destruct (harvest_bounded document (world st) Hmax) as [H5 H6].
  repeat split; assumption.
Qed.

Lemma collectUrls_unique_bounded_ordered_witness :
  collectUrls still_document still_scrollHeight still_scrollBy still_wait
    1 results_page feedSelector 2
  = Some ([url_a; url_b],
          LoopState 0 results_page [Wait 1500; ScrollBy 0 800] 1)
  /\ NoDup [url_a; url_b]
  /\ (Z.of_nat (length [url_a; url_b]) <= 2)%Z.
Proof.
  assert (E : collectUrls still_document still_scrollHeight still_scrollBy
                still_wait 1 results_page feedSelector 2
              = Some ([url_a; url_b],
                      LoopState 0 results_page [Wait 1500; ScrollBy 0 800] 1))
    by reflexivity.
  split; [exact E|].
  destruct (@collectUrls_unique_bounded_ordered _ still_document
              still_scrollHeight still_scrollBy still_wait 1 results_page
              feedSelector 2 _ _ ltac:(lia) E) as [H1 [H2 _]].
  split; assumption.
Defined.

(** C10: where no element matches the container selector, [collectUrls]
    neither fails nor scrolls: the in-page function returns at once, after
    no iteration and no effect, the page as it was, whatever the fuel; and
    the array returned still holds the targets of the place links found
    anywhere in the document, without duplicates, in first-seen order, cut
    to [maxItems]. *)
Theorem collectUrls_without_container
    (World : Type) (document : World -> element)
    (scrollHeight : World -> element -> Z)
    (scrollBy : element -> Z -> Z -> World -> World)
    (wait : Z -> World -> World)
    (fuel : nat) (w : World) (selector : selector) (maxItems : Z) :
  querySelector (document w) selector = None ->
  exists urls,
    collectUrls document scrollHeight scrollBy wait fuel w selector maxItems
    = Some (urls, LoopState 0 w [] 0)
    /\ NoDup urls
    /\ (forall u, In u urls ->
          exists ancestors el,
            In (ancestors, el) (walk [] (document w))
            /\ tagName el = "A"%string
            /\ (exists target,
                  getAttribute el "href" = Some target
                  /\ includes target (str "/maps/place/") = true)
            /\ href el = u)
    /\ first_seen_order (hrefs_of document w) urls
    /\ ((0 <= maxItems)%Z ->
        (Z.of_nat (length urls) <= maxItems)%Z
        /\ ((Z.of_nat (length urls) < maxItems)%Z ->
            forall ancestors el,
              In (ancestors, el) (walk [] (document w)) ->
              tagName el = "A"%string ->
              (exists target,
                 getAttribute el "href" = Some target
                 /\ includes target (str "/maps/place/") = true) ->
              In (href el) urls)).
Proof.
  intros Hnone; exists (harvest document maxItems w).
  split; [unfold collectUrls, scroll_to_end; rewrite Hnone; reflexivity|].
  destruct (harvest_prefix document maxItems w) as [H1 [H2 [H3 _]]].
  split; [exact H1|].
  split.
  { intros u Hu; apply H2 in Hu; unfold hrefs_of in Hu.
    apply in_map_iff in Hu; destruct Hu as [el [He Hin]].
    apply place_link_In in Hin; destruct Hin as [ancs [Hw [Ht Ha]]].
    exists ancs, el; auto. }
  split; [exact H3|].
  intros Hmax; destruct (harvest_bounded document w Hmax) as [H5 H6].
  split; [exact H5|].
  intros Hlt ancs el Hw Ht Ha; apply (H6 Hlt).
  unfold hrefs_of; apply in_map, place_link_In.
  exists ancs; auto.
Qed.

Lemma collectUrls_without_container_witness :
  exists urls,
    collectUrls still_document still_scrollHeight still_scrollBy still_wait
      0 no_feed_page feedSelector 20
    = Some (urls, LoopState 0 no_feed_page [] 0)
    /\ urls = [url_b; url_a].
Proof.
  destruct (@collectUrls_without_container _ still_document
              still_scrollHeight still_scrollBy still_wait 0 no_feed_page
              feedSelector 20 eq_refl) as [urls [H _]].
  exists urls; split; [exact H|].
  vm_compute in H; inversion H; reflexivity.
Defined.



(** The scenario of an exhausted list: a feed that shows three places at
    once and never grows yields exactly these three, in first-seen order,
    after the ninth stalled iteration, with one backward scroll after the
    second. *)
Example exhausted_feed_scenario :
  collectUrls still_document still_scrollHeight still_scrollBy still_wait
    9 results_page feedSelector 20
  = Some ([url_a; url_b; url_c],
          LoopState 9 results_page
            (Wait 1500 :: ScrollBy 0 800 :: Wait 1500 :: ScrollBy 0 800
             :: Wait 1500 :: ScrollBy 0 800 :: Wait 1500 :: ScrollBy 0 800
             :: Wait 1500 :: ScrollBy 0 800 :: Wait 1500 :: ScrollBy 0 800
             :: Wait 1500 :: ScrollBy 0 800 :: ScrollBy 0 (-300)
             :: Wait 1500 :: ScrollBy 0 800 :: Wait 1500 :: ScrollBy 0 800
             :: []) 9).
Proof. vm_compute; reflexivity. Qed.

(** The scenario of a page with a website link only. *)
Example acme_scenario :
  extractDetails acme_page sample_url
  = Some {| name := JSString (str "Acme Plumbing");
            phone := JSString (str "N/A");
            address := JSString (str "N/A");
            website := JSString (str "https://acme.example");
            rating := JSString (str "N/A");
            reviews := JSString (str "0");
            url := JSString sample_url |}.
Proof. reflexivity. Qed.

Lemma growing_loop_runs_on (fuel : nat) (container : element)
    (st : loop_state Z) :
  scroll_loop growing_document growing_scrollHeight growing_scrollBy
    growing_wait fuel container 20 st = None.
Proof.
  revert st; induction fuel as [|fuel IH]; intros st; [reflexivity|].
  simpl scroll_loop; unfold loop_body.
  change (Z.leb 20 (Z.of_nat (count_of growing_document _))) with false.
  cbv iota; unfold settled, growing_scrollHeight, growing_scrollBy,
    growing_wait.
  replace (Z.eqb (world st + 1) (world st)) with false
    by (symmetry; apply Z.eqb_neq; lia).
  apply IH.
Qed.

(** C4, as stated, fails: on a page whose feed grows at every wait and
    never shows a place, the loop has not ended after any number of
    iterations, so no number bounds the iterations in every environment. *)
Lemma growing_feed_never_stops :
  (forall fuel,
     collectUrls growing_document growing_scrollHeight growing_scrollBy
       growing_wait fuel 0%Z feedSelector 20 = None)
  /\ ~ (exists cap : nat,
          forall (World : Type) (document : World -> element)
                 (scrollHeight : World -> element -> Z)
                 (scrollBy : element -> Z -> Z -> World -> World)
                 (wait : Z -> World -> World)
                 (container : element) (max : Z) (w : World),
          exists st,
            scroll_loop document scrollHeight scrollBy wait cap container max
              (LoopState 0 w [] 0) = Some st).
Proof.
  split.
  - intros fuel; unfold collectUrls, scroll_to_end.
    change (querySelector (growing_document 0) feedSelector)
      with (Some (feed_of [])).
    cbv iota; rewrite growing_loop_runs_on; reflexivity.
  - intros [cap H].
    destruct (H Z growing_document growing_scrollHeight growing_scrollBy
                growing_wait (feed_of []) 20%Z 0%Z) as [st Hst].
    rewrite growing_loop_runs_on in Hst; discriminate.
Qed.

(** C4, amended: the cap of the loop is on consecutive stalled iterations,
    not on iterations altogether. In every environment and from every state
    of the loop, once 9 iterations in a row leave the scrollable extent as
    it was, the loop has ended, at the ninth of them at the latest; so the
    loop goes on only while the extent changes at least once in every 9
    iterations and the page shows fewer than [maxCount] place links. *)
Theorem retry_cap_bounds_stalled_runs
    (World : Type) (document : World -> element)
    (scrollHeight : World -> element -> Z)
    (scrollBy : element -> Z -> Z -> World -> World)
    (wait : Z -> World -> World)
    (container : element) (max : Z) (st : loop_state World) (j : nat) :
  (forall i, j <= i < j + 9 ->
     stalled scrollHeight scrollBy wait container
       (after document scrollHeight scrollBy wait i container max st)) ->
  forall fuel, j + 9 <= fuel ->
    exists st',
      scroll_loop document scrollHeight scrollBy wait fuel container max st
      = Some st'
      /\ iterations st < iterations st' <= iterations st + (j + 9).
Proof.
  intros Hstall fuel Hfuel.
  destruct (@stops_within World document scrollHeight scrollBy wait container
              max (j + 9) st
              (@nine_stalled_break World document scrollHeight scrollBy wait
                 container max j st Hstall)) as [st' [Hst Hit]].
  exists st'; split; [|exact Hit].
  replace fuel with (j + 9 + (fuel - (j + 9))) by lia.
  apply scroll_loop_more, Hst.
Qed.

Lemma retry_cap_bounds_stalled_runs_witness :
  exists st',
    scroll_loop still_document still_scrollHeight still_scrollBy still_wait
      12 (feed_of []) 20 (LoopState 0 empty_results_page [] 0) = Some st'
    /\ 0 < iterations st' <= 12.
Proof.
  apply (@retry_cap_bounds_stalled_runs _ still_document still_scrollHeight
           still_scrollBy still_wait (feed_of []) 20
           (LoopState 0 empty_results_page [] 0) 3).
  - intros i Hi; reflexivity.
  - lia.
Defined.

(** * Further properties *)

(** ** Normalisation *)

Lemma replace_runs_single_spaced (b : bool) (s : jstring) :
  single_spaced b s = true ->
  replace_runs_from is_space (str " ") b s = s.
Proof.
  revert b; induction s as [|c s IH]; intros b; simpl; [reflexivity|].
  destruct (is_space c).
  - rewrite !andb_true_iff, negb_true_iff, N.eqb_eq.
    intros [[-> ->] H]; simpl; rewrite (IH true H); reflexivity.
  - intros H; rewrite (IH false H); reflexivity.
Qed.

Lemma replace_runs_absent (cls : jschar -> bool) (rep : jstring) (b : bool)
    (s : jstring) :
  (forall c, In c s -> cls c = false) ->
  replace_runs_from cls rep b s = s.
Proof.
  revert b; induction s as [|c s IH]; intros b H; simpl; [reflexivity|].
  rewrite (H c (or_introl eq_refl)), IH; [reflexivity|].
  intros d Hd; apply H; right; exact Hd.
Qed.

Lemma trim_trimmed (s : jstring) : trimmed s -> trim s = s.
Proof.
  intros [Hfirst Hlast]; unfold trim.
  assert (H1 : drop_while is_space s = s).
  { destruct s as [|c r]; [reflexivity|].
    simpl; rewrite (Hfirst c r eq_refl); reflexivity. }
  rewrite H1.
  destruct (rev s) as [|c r] eqn:E.
  - apply (f_equal (@rev jschar)) in E; rewrite rev_involutive in E.
    rewrite E; reflexivity.
  - assert (Hs : s = rev r ++ [c]).
    { apply (f_equal (@rev jschar)) in E; rewrite rev_involutive in E.
      exact E. }
    simpl; rewrite (Hlast _ _ Hs); simpl; symmetry; exact Hs.
Qed.

Lemma trim_is_trimmed (s : jstring) : trimmed (trim s).
Proof.
  split; [intros c r; apply trim_first | intros r c; apply trim_last].
Qed.

Lemma cleanText_is_trimmed (s : jstring) : trimmed (cleanText s).
Proof.
  destruct s as [|c s]; [|apply trim_is_trimmed].
  split; [discriminate | intros [|? ?]; discriminate].
Qed.

Lemma trim_cleanText (s : jstring) : trim (cleanText s) = cleanText s.
Proof. apply trim_trimmed, cleanText_is_trimmed. Qed.

(** X1: [cleanText] is a normal form: cleaning a cleaned text changes
    nothing, and so does trimming it. *)
Theorem cleanText_idempotent (s : jstring) :
  cleanText (cleanText s) = cleanText s
  /\ trim (cleanText s) = cleanText s.
Proof.
  pose proof (trim_cleanText s) as Ht.
  split; [|exact Ht].
  pose proof (single_spaced_cleanText s) as Hs.
  destruct (cleanText s) as [|c t] eqn:E; [reflexivity|].
  unfold cleanText at 1; unfold replace_runs.
  rewrite (@replace_runs_absent is_crlf).
  - rewrite (replace_runs_single_spaced _ _ Hs); exact Ht.
  - intros d Hd; destruct (is_crlf d) eqn:Ed; [|reflexivity].
    rewrite (single_spaced_In _ _ d Hs Hd (is_crlf_space _ Ed)) in Ed.
    discriminate.
Qed.

(** ** Labels *)

Lemma drop_while_idempotent (p : jschar -> bool) (s : jstring) :
  drop_while p (drop_while p s) = drop_while p s.
Proof.
  induction s as [|c s IH]; simpl; [reflexivity|].
  destruct (p c) eqn:E; [exact IH | simpl; rewrite E; reflexivity].
Qed.

Lemma trim_drop_while (s : jstring) : trim (drop_while is_space s) = trim s.
Proof. unfold trim; rewrite drop_while_idempotent; reflexivity. Qed.

Lemma strip_word_ci_app (word written rest : jstring) :
  List.map upcase written = List.map upcase word ->
  strip_word_ci word (written ++ rest) = Some rest.
Proof.
  revert written; induction word as [|p word IH]; intros [|c written];
    simpl; try discriminate; [reflexivity|].
  intros H; inversion H as [[Hc Hw]].
  rewrite Hc, N.eqb_refl; apply IH, Hw.
Qed.

(** X2: [removeLabel] cuts the label off the start of the text whatever the
    case of its letters, with the colon when there is one and the
    whitespace after it; a text that does not start with the label is kept
    whole, so a candidate found by a label further inside its content is
    stored with the label in it. *)
Theorem removeLabel_at_start_only :
  (forall word written rest,
     List.map upcase written = List.map upcase word ->
     removeLabel (written ++ str ":" ++ rest) word = trim rest
     /\ ((forall r, rest <> 58%N :: r) ->
         removeLabel (written ++ rest) word = trim rest))
  /\ (forall el,
        strip_word_ci (str "Address") (content_of el) = None ->
        possibleAddr el = content_of el)
  /\ (forall el,
        strip_word_ci (str "Phone") (content_of el) = None ->
        possiblePhone el = content_of el).
Proof.
  split; [|split].
  - intros word written rest Hw; unfold removeLabel, strip_label; split.
    + rewrite (@strip_word_ci_app _ _ _ Hw); simpl.
      apply trim_drop_while.
    + intros Hrest; rewrite (@strip_word_ci_app _ _ _ Hw).
      destruct rest as [|c r]; [reflexivity|].
      destruct (N.eqb c 58) eqn:E; [|apply trim_drop_while].
      apply N.eqb_eq in E; subst c; destruct (Hrest r eq_refl).
  - intros el H; unfold possibleAddr, removeLabel, strip_label; rewrite H.
    apply trim_cleanText.
  - intros el H; unfold possiblePhone, removeLabel, strip_label; rewrite H.
    apply trim_cleanText.
Qed.

Lemma removeLabel_at_start_only_witness :
  removeLabel (str "ADDRESS" ++ str ":" ++ str "  12 Elm Street ")
    (str "Address") = str "12 Elm Street"
  /\ removeLabel (str "address" ++ str " 12 Elm Street") (str "Address")
     = str "12 Elm Street"
  /\ possibleAddr
       (text_element "BUTTON"
          [attr "aria-label" (str "Our Address: 7 Oak Road")] [])
     = str "Our Address: 7 Oak Road".
Proof.
  split; [|split].
  - apply (proj1 (proj1 removeLabel_at_start_only (str "Address")
                    (str "ADDRESS") (str "  12 Elm Street ") eq_refl)).
  - apply (proj2 (proj1 removeLabel_at_start_only (str "Address")
                    (str "address") (str " 12 Elm Street") eq_refl)).
    intros r; discriminate.
  - apply (proj1 (proj2 removeLabel_at_start_only)); reflexivity.
Defined.

(** ** Which element decides a field *)

Lemma find_app_split (A : Type) (P : A -> bool) (l1 l2 : list A) :
  find P (l1 ++ l2)
  = match find P l1 with
    | Some x => Some x
    | None => find P l2
    end.
Proof.
  induction l1 as [|x l1 IH]; simpl; [reflexivity|].
  destruct (P x); [reflexivity | exact IH].
Qed.

Lemma find_none_iff (A : Type) (P : A -> bool) (l : list A) :
  (forall x, In x l -> P x = false) -> find P l = None.
Proof.
  induction l as [|x l IH]; simpl; intros H; [reflexivity|].
  rewrite (H x (or_introl eq_refl)); apply IH; intros y Hy; apply H; auto.
Qed.

Lemma find_first_of (A : Type) (P : A -> bool) (before after : list A)
    (x : A) :
  P x = true -> (forall y, In y before -> P y = false) ->
  find P (before ++ x :: after) = Some x.
Proof.
  intros Hx Hb; rewrite find_app_split, (find_none_iff _ _ Hb); simpl.
  rewrite Hx; reflexivity.
Qed.

Lemma find_last_of (A : Type) (P : A -> bool) (before after : list A)
    (x : A) :
  P x = true -> (forall y, In y after -> P y = false) ->
  find P (rev (before ++ x :: after)) = Some x.
Proof.
  intros Hx Ha; rewrite rev_app_distr; simpl; rewrite <- app_assoc.
  apply find_first_of; [exact Hx|].
  intros y Hy; apply Ha, in_rev, Hy.
Qed.

(** X3: among the candidates of a field the last one accepted, in document
    order, decides: the address is the text of the last address candidate
    longer than 5 characters and the phone that of the last phone candidate
    matching the pattern, whatever comes before them and whatever rejected
    candidate comes after. *)
Theorem last_accepted_candidate_wins
    (doc : element) (currentUrl : jstring) (r : BusinessRecord)
    (before after : list element) (el : element) :
  extractDetails doc currentUrl = Some r ->
  querySelectorAll doc sel_scan = before ++ el :: after ->
  (address_accepted el = true ->
   (forall e, In e after -> address_accepted e = false) ->
   address r = JSString (possibleAddr el))
  /\ (phone_accepted el = true ->
      (forall e, In e after -> phone_accepted e = false) ->
      phone r = JSString (possiblePhone el)).
Proof.
  intros Hr Hscan; apply extractDetails_Some in Hr; subst r; simpl.
  split; intros Hel Hafter.
  - rewrite scan_address, Hscan,
      (@find_last_of _ address_accepted before after el Hel Hafter).
    reflexivity.
  - rewrite scan_phone, Hscan,
      (@find_last_of _ phone_accepted before after el Hel Hafter).
    reflexivity.
Qed.

Lemma last_accepted_candidate_wins_witness :
  exists r,
    extractDetails two_address_page sample_url = Some r
    /\ address r = JSString (str "Our Address: 7 Oak Road").
Proof.
  eexists; split; [reflexivity|].
  apply (proj1 (@last_accepted_candidate_wins two_address_page sample_url _
                  [text_element "BUTTON"
                     [attr "data-item-id" (str "address");
                      attr "aria-label" (str "ADDRESS 12 Elm Street, Agra")]
                     []]
                  [text_element "BUTTON"
                     [attr "data-item-id" (str "address");
                      attr "aria-label" (str "Agra")] []]
                  (text_element "BUTTON"
                     [attr "aria-label" (str "Our Address: 7 Oak Road")] [])
                  eq_refl eq_refl)).
  - reflexivity.
  - intros e [<- | []]; reflexivity.
Defined.

(** X4: the website has no validity filter. The last website candidate of
    the scan decides: a link with a target gives its target as it is,
    anything else its content with the label cut off. Only when the scan
    leaves ["N/A"] does the fallback look at the links of the whole
    document whose [href] starts with ["http"], and there the first one
    tagged as the website gives its target, cleaned. *)
Theorem website_rule
    (doc : element) (currentUrl : jstring) (r : BusinessRecord) :
  extractDetails doc currentUrl = Some r ->
  (forall before el after,
     querySelectorAll doc sel_scan = before ++ el :: after ->
     is_website_candidate el = true ->
     (forall e, In e after -> is_website_candidate e = false) ->
     (tagName el = "A"%string -> href el <> [] -> href el <> NA ->
      website r = JSString (href el))
     /\ ((tagName el <> "A"%string \/ href el = []) ->
         removeLabel (content_of el) (str "Website") <> NA ->
         website r = JSString (removeLabel (content_of el) (str "Website"))))
  /\ (forall before a after,
        (forall e, In e (querySelectorAll doc sel_scan) ->
                   is_website_candidate e = false) ->
        querySelectorAll doc sel_outbound = before ++ a :: after ->
        getAttribute a "data-item-id" = Some (str "authority") ->
        (forall e, In e before ->
                   getAttribute e "data-item-id" <> Some (str "authority")) ->
        website r = JSString (cleanText (href a))).
Proof.
  intros Hr; apply extractDetails_Some in Hr; subst r; simpl.
  split.
  - intros before el after Hscan Hel Hafter.
    rewrite scan_website, Hscan,
      (@find_last_of _ is_website_candidate before after el Hel Hafter).
    split.
    + intros Ht Hh Hna.
      apply String.eqb_eq in Ht; rewrite Ht.
      apply jstring_eqb_neq in Hh; rewrite Hh; simpl.
      unfold website_fallback.
      apply jstring_eqb_neq in Hna; rewrite Hna; reflexivity.
    + intros Hno Hna.
      assert (E : String.eqb (tagName el) "A"
                  && negb (jstring_eqb (href el) []) = false).
      { destruct Hno as [Ht | Hh].
        - apply String.eqb_neq in Ht; rewrite Ht; reflexivity.
        - rewrite Hh; simpl; apply andb_false_r. }
      rewrite E; unfold website_fallback.
      apply jstring_eqb_neq in Hna; rewrite Hna; reflexivity.
  - intros before a after Hnone Hout Ha Hbefore.
    rewrite scan_website, (find_none_forall _ _ Hnone).
    unfold website_fallback; rewrite jstring_eqb_refl, Hout.
    rewrite find_first_of; [reflexivity | rewrite Ha; apply jstring_eqb_refl|].
    intros e He; specialize (Hbefore e He).
    destruct (getAttribute e "data-item-id") as [v|]; [|reflexivity].
    apply jstring_eqb_neq; congruence.
Qed.

Lemma website_rule_witness :
  (exists r,
     extractDetails acme_page sample_url = Some r
     /\ website r = JSString (str "https://acme.example"))
  /\ (exists r,
        extractDetails footer_website_page sample_url = Some r
        /\ website r = JSString (str "https://acme.example/")).
Proof.
  split; (eexists; split; [reflexivity|]).
  - apply (proj1 (proj1 (@website_rule acme_page sample_url _ eq_refl)
                    [] (link_element [attr "data-item-id" (str "authority")]
                          (str "acme.example") (str "https://acme.example"))
                    [] eq_refl eq_refl (fun e (H : In e []) => match H with end)));
      [reflexivity | discriminate | discriminate].
  - apply (proj2 (@website_rule footer_website_page sample_url _ eq_refl)
             [] (link_element [attr "data-item-id" (str "authority")]
                   (str "Website") (str "https://acme.example/ ")) []).
    + intros e [].
    + reflexivity.
    + reflexivity.
    + intros e [].
Defined.

(** X5: a page gives a record to the result collection exactly when its
    heading, normalised, is neither empty nor ["Google Maps"]: the name of a
    record [extractDetails] returns is never empty, so of the driver's three
    tests only the comparison with the placeholder title ever turns a record
    away, and it is made on the normalised heading. *)
Theorem heading_decides_collection
    (extractedData : list BusinessRecord) (doc : element)
    (currentUrl : jstring) :
  (forallb is_space (heading_text doc) = true
   \/ cleanText (heading_text doc) = str "Google Maps" ->
   collect_result extractedData (extractDetails doc currentUrl)
   = extractedData)
  /\ (forallb is_space (heading_text doc) = false ->
      cleanText (heading_text doc) <> str "Google Maps" ->
      exists r,
        extractDetails doc currentUrl = Some r
        /\ name r = JSString (cleanText (heading_text doc))
        /\ collect_result extractedData (extractDetails doc currentUrl)
           = extractedData ++ [r]).
Proof.
  split.
  - intros [Hb | Hg].
    + apply cleanText_nil, (extractDetails_None doc currentUrl) in Hb.
      rewrite Hb; reflexivity.
    + destruct (extractDetails doc currentUrl) as [r|] eqn:E; [|reflexivity].
      apply extractDetails_Some in E; subst r.
      unfold collect_result; simpl name; rewrite Hg.
      simpl; reflexivity.
  - intros Hb Hg.
    assert (Hn : cleanText (heading_text doc) <> [])
      by (rewrite cleanText_nil, Hb; discriminate).
    destruct (extractDetails_total doc currentUrl Hn) as [r Hr].
    exists r; split; [exact Hr|].
    rewrite Hr; apply extractDetails_Some in Hr; subst r.
    split; [reflexivity|].
    unfold collect_result; simpl name.
    apply jstring_eqb_neq in Hg; simpl jsval_eqb; rewrite Hg.
    destruct (cleanText (heading_text doc));
      [destruct Hn; reflexivity | reflexivity].
Qed.

Lemma heading_decides_collection_witness :
  collect_result []
    (extractDetails (detail_page (str " Google " ++ nl ++ str " Maps ") [])
       sample_url) = []
  /\ exists r,
       extractDetails joes_page sample_url = Some r
       /\ collect_result [] (extractDetails joes_page sample_url) = [r].
Proof.
  split.
  - apply (proj1 (heading_decides_collection []
                    (detail_page (str " Google " ++ nl ++ str " Maps ") [])
                    sample_url)).
    right; reflexivity.
  - destruct (proj2 (heading_decides_collection [] joes_page sample_url)
                eq_refl) as [r [H1 [_ H2]]]; [discriminate|].
    exists r; split; assumption.
Defined.

(** ** What the scroll loop does to the page *)

Section LoopTrace.

Variable World : Type.
Variable document : World -> element.
Variable scrollHeight : World -> element -> Z.
Variable scrollBy : element -> Z -> Z -> World -> World.
Variable wait : Z -> World -> World.
Variable container : element.
Variable max : Z.

Local Abbreviation body :=
  (loop_body document scrollHeight scrollBy wait container max).

Lemma counters_forward (tr : list effect) :
  waits (Wait 1500 :: ScrollBy 0 800 :: tr) = S (waits tr)
  /\ forward_scrolls (Wait 1500 :: ScrollBy 0 800 :: tr)
     = S (forward_scrolls tr)
  /\ backward_scrolls (Wait 1500 :: ScrollBy 0 800 :: tr)
     = backward_scrolls tr
  /\ scrolled (Wait 1500 :: ScrollBy 0 800 :: tr) = (800 + scrolled tr)%Z.
Proof. repeat split. Qed.

Lemma counters_backward (tr : list effect) :
  waits (ScrollBy 0 (-300) :: tr) = waits tr
  /\ forward_scrolls (ScrollBy 0 (-300) :: tr) = forward_scrolls tr
  /\ backward_scrolls (ScrollBy 0 (-300) :: tr) = S (backward_scrolls tr)
  /\ scrolled (ScrollBy 0 (-300) :: tr) = (-300 + scrolled tr)%Z.
Proof. repeat split. Qed.

Lemma body_paced (st : loop_state World) :
  paced st -> paced (snd (body st)).
Proof.
  unfold paced, loop_body, distance.
  intros [H1 [H2 [H3 [H4 H5]]]].
  destruct (counters_forward (trace st)) as [F1 [F2 [F3 F4]]].
  destruct (counters_backward (Wait 1500 :: ScrollBy 0 800 :: trace st))
    as [B1 [B2 [B3 B4]]].
  destruct (retries st) as [|[|[|r]]];
    (destruct (Z.leb max _); [|destruct (Z.eqb _ _)]);
    cbn [snd trace iterations retries Nat.eqb Nat.ltb Nat.leb Nat.sub] in *;
    rewrite ?B1, ?B2, ?B3, ?B4, ?F1, ?F2, ?F3, ?F4; repeat split; lia.
Qed.

Lemma scroll_loop_paced (fuel : nat) (st st' : loop_state World) :
  paced st ->
  scroll_loop document scrollHeight scrollBy wait fuel container max st
  = Some st' ->
  paced st'.
Proof.
  revert st; induction fuel as [|fuel IH]; intros st Hp; simpl;
    [discriminate|].
  pose proof (body_paced Hp) as Hb.
  destruct (body st) as [[|] st1]; simpl in Hb.
  - intros H; inversion H; subst; exact Hb.
  - apply IH, Hb.
Qed.

(** How an iteration ends the loop, and what it leaves when it does not. *)
Lemma body_exit (st : loop_state World) :
  retries st <= 8 ->
  (fst (body st) = true ->
   (max <= Z.of_nat (count_of document (world (snd (body st)))))%Z
   \/ retries (snd (body st)) = 9)
  /\ (fst (body st) = false -> retries (snd (body st)) <= 8).
Proof.
  unfold loop_body; intros Hr.
  destruct (Z.leb max _) eqn:E.
  - simpl; split; [intros _; left; apply Z.leb_le, E | discriminate].
  - destruct (Z.eqb _ _); simpl; [|split; [discriminate | lia]].
    split; intros H.
    + right; apply Nat.ltb_lt in H; lia.
    + apply Nat.ltb_ge in H; lia.
Qed.

Lemma scroll_loop_exit (fuel : nat) (st st' : loop_state World) :
  retries st <= 8 ->
  scroll_loop document scrollHeight scrollBy wait fuel container max st
  = Some st' ->
  (max <= Z.of_nat (count_of document (world st')))%Z \/ retries st' = 9.
Proof.
  revert st; induction fuel as [|fuel IH]; intros st Hr; simpl;
    [discriminate|].
  destruct (body_exit st Hr) as [Ht Hf].
  destruct (body st) as [[|] st1]; simpl in *.
  - intros H; inversion H; subst; apply Ht; reflexivity.
  - apply IH, Hf; reflexivity.
Qed.

End LoopTrace.

Lemma Set_length (l distinct : list jstring) :
  NoDup distinct -> (forall x, In x distinct <-> In x l) ->
  length (fold_left Set_add l []) = length distinct.
Proof.
  intros Hnd Hmem.
  destruct (Set_of_spec l) as [HndS [HinS _]].
  apply Nat.le_antisymm; apply NoDup_incl_length; auto;
    intros x Hx; [apply Hmem, HinS, Hx | apply HinS, Hmem, Hx].
Qed.

(** X6: every iteration of the loop scrolls forward by 800 once and waits
    once, and a backward scroll of 300 comes at most once in two
    iterations; so the page is asked to scroll forward by at least 650 for
    each iteration, never backward on the whole. *)
Theorem collectUrls_paces_scrolls
    (World : Type) (document : World -> element)
    (scrollHeight : World -> element -> Z)
    (scrollBy : element -> Z -> Z -> World -> World)
    (wait : Z -> World -> World)
    (fuel : nat) (w : World) (selector : selector) (maxItems : Z)
    (urls : list jstring) (st : loop_state World) :
  collectUrls document scrollHeight scrollBy wait fuel w selector maxItems
  = Some (urls, st) ->
  waits (trace st) = iterations st
  /\ forward_scrolls (trace st) = iterations st
  /\ 2 * backward_scrolls (trace st) <= iterations st
  /\ (650 * Z.of_nat (iterations st) <= scrolled (trace st)
      <= 800 * Z.of_nat (iterations st))%Z.
Proof.
  unfold collectUrls, scroll_to_end; intros H.
  assert (Hp : paced st).
  { assert (H0 : paced (LoopState 0 w [] 0))
      by (unfold paced; simpl; repeat split; lia).
    destruct (querySelector (document w) selector) as [container|].
    - destruct (scroll_loop document scrollHeight scrollBy wait fuel
                  container maxItems (LoopState 0 w [] 0)) as [st'|] eqn:E;
        [|discriminate].
      inversion H; subst.
      apply (@scroll_loop_paced _ document scrollHeight scrollBy wait
               container maxItems fuel _ _ H0 E).
    - inversion H; subst; exact H0. }
  destruct Hp as [H1 [H2 [H3 [H4 H5]]]].
  assert (Hb : 2 * backward_scrolls (trace st) <= iterations st)
    by (destruct (Nat.ltb (retries st) 2); lia).
  repeat split; try assumption; lia.
Qed.

Lemma collectUrls_paces_scrolls_witness :
  exists urls st,
    collectUrls still_document still_scrollHeight still_scrollBy still_wait
      9 results_page feedSelector 20 = Some (urls, st)
    /\ waits (trace st) = 9 /\ backward_scrolls (trace st) = 1
    /\ scrolled (trace st) = 6900%Z.
Proof.
  eexists; eexists; split; [vm_compute; reflexivity|].
  destruct (@collectUrls_paces_scrolls _ still_document still_scrollHeight
              still_scrollBy still_wait 9 results_page feedSelector 20 _ _
              ltac:(vm_compute; reflexivity)) as [H _].
  split; [exact H | split; reflexivity].
Defined.

(** X7: with the container found, [collectUrls] returns only once the page
    shows [maxItems] place links or more, or after 9 iterations in a row
    found the extent unchanged, so after 9 iterations at least: there is no
    other way out of the loop. *)
Theorem collectUrls_returns_on_target_or_exhaustion
    (World : Type) (document : World -> element)
    (scrollHeight : World -> element -> Z)
    (scrollBy : element -> Z -> Z -> World -> World)
    (wait : Z -> World -> World)
    (fuel : nat) (w : World) (selector : selector) (container : element)
    (maxItems : Z) (urls : list jstring) (st : loop_state World) :
  querySelector (document w) selector = Some container ->
  collectUrls document scrollHeight scrollBy wait fuel w selector maxItems
  = Some (urls, st) ->
  (maxItems <= Z.of_nat (count_of document (world st)))%Z
  \/ (retries st = 9 /\ 9 <= iterations st).
Proof.
  unfold collectUrls, scroll_to_end; intros Hc H; rewrite Hc in H.
  destruct (scroll_loop document scrollHeight scrollBy wait fuel container
              maxItems (LoopState 0 w [] 0)) as [st'|] eqn:E; [|discriminate].
  inversion H; subst; clear H.
  assert (H0 : paced (LoopState 0 w [] 0))
    by (unfold paced; simpl; repeat split; lia).
  pose proof (@scroll_loop_paced _ document scrollHeight scrollBy wait
                container maxItems fuel _ _ H0 E) as [_ [_ [_ [_ Hp]]]].
  destruct (@scroll_loop_exit _ document scrollHeight scrollBy wait container
              maxItems fuel (LoopState 0 w [] 0) st) as [Ht | Hr];
    [simpl; lia | exact E | left; exact Ht | right; split; lia].
Qed.

Lemma collectUrls_returns_on_target_or_exhaustion_witness :
  exists urls st,
    collectUrls still_document still_scrollHeight still_scrollBy still_wait
      9 results_page feedSelector 20 = Some (urls, st)
    /\ retries st = 9 /\ 9 <= iterations st.
Proof.
  eexists; eexists; split; [vm_compute; reflexivity|].
  destruct (@collectUrls_returns_on_target_or_exhaustion _ still_document
              still_scrollHeight still_scrollBy still_wait 9 results_page
              feedSelector _ 20 _ _ eq_refl
              ltac:(vm_compute; reflexivity)) as [H | H]; [|exact H].
  vm_compute in H; destruct (H eq_refl).
Defined.

(** X8: the number of targets returned is the number of distinct targets of
    the place links shown, cut to [maxItems] when that is not negative; a
    negative [maxItems] drops that many from the end instead. *)
Theorem collectUrls_length
    (World : Type) (document : World -> element)
    (scrollHeight : World -> element -> Z)
    (scrollBy : element -> Z -> Z -> World -> World)
    (wait : Z -> World -> World)
    (fuel : nat) (w : World) (selector : selector) (maxItems : Z)
    (urls : list jstring) (st : loop_state World) (distinct : list jstring) :
  collectUrls document scrollHeight scrollBy wait fuel w selector maxItems
  = Some (urls, st) ->
  NoDup distinct ->
  (forall x, In x distinct <-> In x (hrefs_of document (world st))) ->
  ((0 <= maxItems)%Z ->
   length urls = Nat.min (Z.to_nat maxItems) (length distinct))
  /\ ((maxItems < 0)%Z ->
      length urls = Z.to_nat (Z.of_nat (length distinct) + maxItems)).
Proof.
  intros H Hnd Hmem; unfold collectUrls in H.
  destruct (scroll_to_end document scrollHeight scrollBy wait fuel selector
              maxItems w) as [st'|]; [|discriminate].
  inversion H; subst; clear H.
  unfold harvest; rewrite slice_from_start, length_firstn.
  rewrite (Set_length _ Hnd Hmem).
  unfold relative_index; split; intros Hm.
  - destruct (Z.ltb maxItems 0) eqn:E; [apply Z.ltb_lt in E; lia | lia].
  - apply Z.ltb_lt in Hm; rewrite Hm; lia.
Qed.

Lemma collectUrls_length_witness :
  (exists urls st,
     collectUrls still_document still_scrollHeight still_scrollBy still_wait
       9 results_page feedSelector 20 = Some (urls, st)
     /\ length urls = 3)
  /\ (exists urls st,
        collectUrls still_document still_scrollHeight still_scrollBy
          still_wait 1 results_page feedSelector (-1) = Some (urls, st)
        /\ length urls = 2).
Proof.
  split; (eexists; eexists; split; [vm_compute; reflexivity|]).
  - apply (proj1 (@collectUrls_length _ still_document still_scrollHeight
                    still_scrollBy still_wait 9 results_page feedSelector 20
                    _ _ [url_a; url_b; url_c] ltac:(vm_compute; reflexivity)
                    ltac:(repeat constructor; simpl; intuition discriminate)
                    ltac:(intros x; simpl; tauto)));
      lia.
  - apply (proj2 (@collectUrls_length _ still_document still_scrollHeight
                    still_scrollBy still_wait 1 results_page feedSelector
                    (-1) _ _ [url_a; url_b; url_c]
                    ltac:(vm_compute; reflexivity)
                    ltac:(repeat constructor; simpl; intuition discriminate)
                    ltac:(intros x; simpl; tauto)));
      lia.
Defined.

(** X9: a [maxItems] of 0 or less is reached by any count, so with the
    container found the loop runs one iteration, one scroll and one wait,
    and ends; with [maxItems = 0] nothing is returned. *)
Theorem collectUrls_nonpositive_max
    (World : Type) (document : World -> element)
    (scrollHeight : World -> element -> Z)
    (scrollBy : element -> Z -> Z -> World -> World)
    (wait : Z -> World -> World)
    (fuel : nat) (w : World) (selector : selector) (container : element)
    (maxItems : Z) :
  querySelector (document w) selector = Some container ->
  (maxItems <= 0)%Z ->
  exists urls,
    collectUrls document scrollHeight scrollBy wait (S fuel) w selector
      maxItems
    = Some (urls,
            LoopState 0 (settled scrollBy wait container w)
              [Wait 1500; ScrollBy 0 800] 1)
    /\ (maxItems = 0%Z -> urls = []).
Proof.
  intros Hc Hm.
  exists (harvest document maxItems (settled scrollBy wait container w)).
  split.
  - unfold collectUrls, scroll_to_end; rewrite Hc.
    simpl scroll_loop; unfold loop_body.
    replace (Z.leb maxItems _) with true by (symmetry; apply Z.leb_le; lia).
    reflexivity.
  - intros ->; unfold harvest; rewrite slice_from_start; reflexivity.
Qed.

Lemma collectUrls_nonpositive_max_witness :
  exists urls,
    collectUrls still_document still_scrollHeight still_scrollBy still_wait
      1 results_page feedSelector 0
    = Some (urls, LoopState 0 results_page [Wait 1500; ScrollBy 0 800] 1)
    /\ urls = [].
Proof.
  destruct (@collectUrls_nonpositive_max _ still_document still_scrollHeight
              still_scrollBy still_wait 0 results_page feedSelector _ 0
              eq_refl ltac:(lia)) as [urls [H1 H2]].
  exists urls; split; [exact H1 | exact (H2 eq_refl)].
Defined.

(** ** The query prompt *)

Lemma rejected_input_iff (userInput : jstring) :
  rejected_input userInput = true <-> forallb is_space userInput = true.
Proof.
  unfold rejected_input; destruct userInput as [|c s]; [simpl; tauto|].
  rewrite <- trim_nil.
  destruct (trim (c :: s)); split; congruence.
Qed.

(** X10: the query the search runs with is the first answer that is not
    blank, trimmed: it is never empty and neither starts nor ends with
    whitespace, every answer before it was blank and cost one error line;
    and while all answers are blank the prompt goes on. *)
Theorem read_query_spec :
  (forall answers q errors,
     read_query answers = Some (q, errors) ->
     q <> [] /\ trimmed q
     /\ exists before userInput later,
          answers = before ++ userInput :: later
          /\ length before = errors
          /\ (forall a, In a before -> forallb is_space a = true)
          /\ forallb is_space userInput = false
          /\ q = trim userInput)
  /\ (forall answers,
        read_query answers = None
        <-> forall a, In a answers -> forallb is_space a = true).
Proof.
  split.
  - induction answers as [|a answers IH]; intros q errors; simpl;
      [discriminate|].
    destruct (rejected_input a) eqn:E.
    + destruct (read_query answers) as [[q' n]|]; [|discriminate].
      intros H; inversion H; subst q' errors; clear H.
      destruct (IH q n eq_refl)
        as [H1 [H2 [before [u [later [Ha [Hl [Hb [Hu Hq]]]]]]]]].
      split; [exact H1|]; split; [exact H2|].
      exists (a :: before), u, later; simpl; rewrite Ha, Hl.
      repeat split; auto.
      intros x [<- | Hx]; [apply rejected_input_iff, E | apply Hb, Hx].
    + intros H; inversion H; subst q errors; clear H.
      assert (Hns : forallb is_space a = false).
      { destruct (forallb is_space a) eqn:F; [|reflexivity].
        apply rejected_input_iff in F; congruence. }
      split; [rewrite trim_nil, Hns; discriminate|].
      split; [apply trim_is_trimmed|].
      exists [], a, answers; simpl; repeat split; tauto.
  - induction answers as [|a answers IH]; simpl; [tauto|].
    destruct (rejected_input a) eqn:E.
    + destruct (read_query answers) as [[q' n]|]; split.
      * discriminate.
      * intros H.
        assert (Hn : Some (q', n) = None)
          by (apply IH; intros x Hx; apply H; right; exact Hx).
        discriminate.
      * intros _ x [<- | Hx];
          [apply rejected_input_iff, E | apply (proj1 IH eq_refl), Hx].
      * reflexivity.
    + split; [discriminate|].
      intros H; specialize (H a (or_introl eq_refl)).
      apply rejected_input_iff in H; congruence.
Qed.

Lemma read_query_spec_witness :
  read_query [[]; str "   "; str "  Food shop in Agra "; str "other"]
  = Some (str "Food shop in Agra", 2)
  /\ trimmed (str "Food shop in Agra").
Proof.
  split; [reflexivity|].
  apply (proj1 read_query_spec
           [[]; str "   "; str "  Food shop in Agra "; str "other"]
           (str "Food shop in Agra") 2 eq_refl).
Defined.

(** ** The batches *)

Lemma slice_window (A : Type) (l : list A) (n : nat) (b : Z) :
  (0 < b)%Z -> n <= length l ->
  slice l (Z.of_nat n) (Z.of_nat n + b) = firstn (Z.to_nat b) (skipn n l).
Proof.
  intros Hb Hn; unfold slice.
  rewrite !relative_index_nonneg by lia.
  rewrite Nat2Z.id, (Nat.min_l n) by exact Hn.
  replace (Z.to_nat (Z.of_nat n + b)) with (n + Z.to_nat b) by lia.
  destruct (Nat.le_gt_cases (n + Z.to_nat b) (length l)) as [H | H].
  - rewrite Nat.min_l by exact H; f_equal; lia.
  - rewrite Nat.min_r by lia.
    rewrite !firstn_all2; [reflexivity | | ]; rewrite length_skipn; lia.
Qed.

Lemma visits_of_app (l m : list driver_event) :
  visits_of (l ++ m) = visits_of l ++ visits_of m.
Proof.
  induction l as [|[k u|] l IH]; simpl; [reflexivity | f_equal; exact IH|
                                          exact IH].
Qed.

Lemma rests_of_app (l m : list driver_event) :
  rests_of (l ++ m) = rests_of l + rests_of m.
Proof.
  induction l as [|[k u|] l IH]; simpl; [reflexivity | exact IH|
                                          f_equal; exact IH].
Qed.

Lemma numbered_app (a b : list jstring) (k : Z) :
  numbered (a ++ b) k = numbered a k ++ numbered b (k + Z.of_nat (length a)).
Proof.
  revert k; induction a as [|u a IH]; intros k; simpl numbered.
  - simpl; f_equal; lia.
  - simpl app; f_equal; rewrite IH; f_equal; f_equal.
    simpl length; lia.
Qed.

Section BatchFacts.

Variable visit : Z -> jstring -> option element.

Lemma collect_in_turn_app (a b : list jstring) (k : Z)
    (data : list BusinessRecord) :
  collect_in_turn visit (a ++ b) k data
  = collect_in_turn visit b (k + Z.of_nat (length a))
      (collect_in_turn visit a k data).
Proof.
  revert k data; induction a as [|u a IH]; intros k data.
  - simpl; f_equal; lia.
  - simpl app; simpl collect_in_turn; rewrite IH; f_equal.
    simpl length; lia.
Qed.

(** The inner loop visits its batch in turn. *)
Lemma process_batch_spec (batch : list jstring) (i j : Z) (st : run_state) :
  extractedData (process_batch visit batch i j st)
  = collect_in_turn visit batch (i + j) (extractedData st)
  /\ visits_of (events (process_batch visit batch i j st))
     = visits_of (events st) ++ numbered batch (i + j)
  /\ rests_of (events (process_batch visit batch i j st))
     = rests_of (events st).
Proof.
  revert j st; induction batch as [|u batch IH]; intros j st.
  - simpl; rewrite app_nil_r; auto.
  - simpl process_batch.
    destruct (IH (j + 1)%Z (process_url visit st (i + j + 1) u))
      as [H1 [H2 H3]].
    rewrite H1, H2, H3; clear H1 H2 H3 IH.
    replace (i + (j + 1))%Z with (i + j + 1)%Z by lia.
    unfold process_url; simpl collect_in_turn; simpl numbered.
    destruct (visit (i + j + 1)%Z u); simpl extractedData; simpl events;
      rewrite visits_of_app, rests_of_app; simpl;
      rewrite <- app_assoc; simpl; repeat split; lia.
Qed.

(** What the outer loop has done when it ends. *)
Lemma process_batches_spec (businessUrls : list jstring) (batchSize : Z)
    (fuel n : nat) (st st' : run_state) :
  (0 < batchSize)%Z -> n <= length businessUrls ->
  process_batches visit fuel businessUrls batchSize (Z.of_nat n) st
  = Some st' ->
  extractedData st'
  = collect_in_turn visit (skipn n businessUrls) (Z.of_nat n)
      (extractedData st)
  /\ visits_of (events st')
     = visits_of (events st) ++ numbered (skipn n businessUrls) (Z.of_nat n)
  /\ rests_of (events st')
     = rests_of (events st)
       + (length businessUrls - n - 1) / Z.to_nat batchSize.
Proof.
  intros Hb; revert n st; induction fuel as [|fuel IH]; intros n st Hn;
    simpl process_batches; [discriminate|].
  destruct (Z.ltb (Z.of_nat n) (Z.of_nat (length businessUrls))) eqn:E.
  - apply Z.ltb_lt in E.
    rewrite (slice_window _ Hb Hn).
    set (b := Z.to_nat batchSize) in *.
    set (batch := firstn b (skipn n businessUrls)).
    destruct (process_batch_spec batch (Z.of_nat n) 0 st) as [P1 [P2 P3]].
    replace (Z.of_nat n + 0)%Z with (Z.of_nat n) in P1, P2 by lia.
    assert (Hsplit : skipn n businessUrls
                     = batch ++ skipn (n + b) businessUrls).
    { unfold batch; rewrite Nat.add_comm, <- skipn_skipn.
      symmetry; apply firstn_skipn. }
    replace (Z.of_nat n + batchSize)%Z with (Z.of_nat (n + b)) by lia.
    destruct (Z.ltb (Z.of_nat (n + b)) (Z.of_nat (length businessUrls)))
      eqn:E2.
    + apply Z.ltb_lt in E2; intros H.
      apply IH in H; [|lia].
      destruct H as [H1 [H2 H3]]; simpl extractedData in H1;
        simpl events in H2, H3.
      assert (Hlen : length batch = b).
      { unfold batch; rewrite length_firstn, length_skipn; lia. }
      rewrite Hsplit, collect_in_turn_app, numbered_app, Hlen.
      replace (Z.of_nat n + Z.of_nat b)%Z with (Z.of_nat (n + b)) by lia.
      rewrite H1, P1, H2, visits_of_app, P2, H3, rests_of_app, P3; simpl.
      rewrite app_nil_r, <- app_assoc.
      repeat split.
      replace (length businessUrls - n - 1)
        with (length businessUrls - (n + b) - 1 + 1 * b) by lia.
      rewrite Nat.div_add by lia; lia.
    + apply Z.ltb_ge in E2.
      destruct fuel as [|fuel]; simpl process_batches; [discriminate|].
      replace (Z.ltb (Z.of_nat (n + b)) (Z.of_nat (length businessUrls)))
        with false by (symmetry; apply Z.ltb_ge; lia).
      intros H; inversion H; subst st'; clear H.
      assert (Hs : skipn (n + b) businessUrls = [])
        by (apply skipn_all2; lia).
      rewrite Hs, app_nil_r in Hsplit; rewrite Hsplit, P1, P2, P3.
      repeat split.
      rewrite Nat.div_small by lia; lia.
  - apply Z.ltb_ge in E; intros H; inversion H; subst st'; clear H.
    rewrite skipn_all2 by lia; simpl; rewrite app_nil_r.
    replace (length businessUrls - n - 1) with 0 by lia.
    rewrite Nat.Div0.div_0_l; repeat split; lia.
Qed.

(** The outer loop ends when every batch has at least one candidate. *)
Lemma process_batches_ends (businessUrls : list jstring) (batchSize : Z)
    (fuel n : nat) (st : run_state) :
  (0 < batchSize)%Z -> n <= length businessUrls ->
  length businessUrls - n < fuel ->
  exists st',
    process_batches visit fuel businessUrls batchSize (Z.of_nat n) st
    = Some st'.
Proof.
  intros Hb; revert n st; induction fuel as [|fuel IH]; intros n st Hn Hf;
    [lia|].
  simpl process_batches.
  destruct (Z.ltb (Z.of_nat n) (Z.of_nat (length businessUrls))) eqn:E;
    [|eexists; reflexivity].
  apply Z.ltb_lt in E.
  replace (Z.of_nat n + batchSize)%Z
    with (Z.of_nat (n + Z.to_nat batchSize)) by lia.
  destruct (Z.ltb (Z.of_nat (n + Z.to_nat batchSize))
              (Z.of_nat (length businessUrls))) eqn:E2.
  - apply Z.ltb_lt in E2; apply IH; lia.
  - destruct fuel as [|fuel]; [lia|].
    simpl process_batches; rewrite E2; eexists; reflexivity.
Qed.

(** With a batch size that is not positive the index never gets past the
    first candidate. *)
Lemma process_batches_stuck (businessUrls : list jstring) (batchSize : Z)
    (fuel : nat) (i : Z) (st : run_state) :
  (batchSize <= 0)%Z -> (i <= 0)%Z -> businessUrls <> [] ->
  process_batches visit fuel businessUrls batchSize i st = None.
Proof.
  intros Hb Hi Hu; revert i st Hi; induction fuel as [|fuel IH];
    intros i st Hi; [reflexivity|].
  simpl process_batches.
  replace (Z.ltb i (Z.of_nat (length businessUrls))) with true.
  - apply IH; lia.
  - symmetry; apply Z.ltb_lt.
    destruct businessUrls; [congruence | simpl length; lia].
Qed.

(** Where a collected record comes from. *)
Lemma collect_in_turn_origin (urls : list jstring) (k : Z)
    (data : list BusinessRecord) (r : BusinessRecord) :
  In r (collect_in_turn visit urls k data) ->
  In r data
  \/ exists n u document,
       In (n, u) (numbered urls k)
       /\ visit n u = Some document
       /\ extractDetails document u = Some r
       /\ truthy (name r) = true
       /\ name r <> JSString (str "Google Maps").
Proof.
  revert k data; induction urls as [|u urls IH]; intros k data;
    simpl collect_in_turn; [auto|].
  intros H; apply IH in H; destruct H as [H | [n [v [d H]]]].
  - destruct (visit (k + 1)%Z u) as [document|] eqn:V; [|auto].
    destruct (extractDetails document u) as [d|] eqn:X; [|auto].
    unfold collect_result in H.
    destruct (truthy (name d)
              && negb (jsval_eqb (name d) (JSString (str "Google Maps"))))
      eqn:K; [|auto].
    apply in_app_or in H; destruct H as [H | [<- | []]]; [auto|].
    right; exists (k + 1)%Z, u, document; simpl numbered.
    apply andb_true_iff in K; destruct K as [K1 K2].
    split; [left; reflexivity|]; split; [exact V|]; split; [exact X|].
    split; [exact K1|].
    intros Hn; rewrite Hn in K2; vm_compute in K2; discriminate.
  - right; exists n, v, d; simpl numbered.
    destruct H as [H1 H2]; split; [right; exact H1 | exact H2].
Qed.

Lemma collect_in_turn_length (urls : list jstring) (k : Z)
    (data : list BusinessRecord) :
  length (collect_in_turn visit urls k data) <= length data + length urls.
Proof.
  revert k data; induction urls as [|u urls IH]; intros k data;
    simpl collect_in_turn; [lia|].
  etransitivity; [apply IH|]; simpl length.
  destruct (visit (k + 1)%Z u) as [document|]; [|lia].
  destruct (extractDetails document u) as [d|]; simpl; [|lia].
  destruct (truthy (name d) && _); [rewrite length_app; simpl; lia | lia].
Qed.

Lemma collect_result_app (data : list BusinessRecord)
    (x : option BusinessRecord) :
  collect_result data x = data ++ collect_result [] x.
Proof.
  unfold collect_result; destruct x as [d|]; [|rewrite app_nil_r; reflexivity].
  destruct (truthy (name d) && _); [reflexivity | rewrite app_nil_r].
  reflexivity.
Qed.

(** Each candidate adds its own contribution, whatever the others do. *)
Lemma collect_in_turn_flat (urls : list jstring) (k : Z)
    (data : list BusinessRecord) :
  collect_in_turn visit urls k data
  = data ++ flat_map (contribution visit) (numbered urls k).
Proof.
  revert k data; induction urls as [|u urls IH]; intros k data;
    simpl collect_in_turn; simpl numbered; simpl flat_map.
  - rewrite app_nil_r; reflexivity.
  - rewrite IH; unfold contribution at 2; simpl fst; simpl snd.
    destruct (visit (k + 1)%Z u) as [document|].
    + rewrite collect_result_app, <- app_assoc; reflexivity.
    + reflexivity.
Qed.

Lemma collect_result_kept (r : BusinessRecord) :
  truthy (name r) = true -> name r <> JSString (str "Google Maps") ->
  collect_result [] (Some r) = [r].
Proof.
  intros Ht Hg; unfold collect_result; rewrite Ht.
  replace (jsval_eqb (name r) (JSString (str "Google Maps"))) with false;
    [reflexivity|].
  destruct (name r) as [s|z]; [|reflexivity].
  symmetry; apply jstring_eqb_neq; congruence.
Qed.

End BatchFacts.

(** X11: with a positive batch size the driver visits every candidate
    exactly once, in the order of discovery and numbered from 1, whatever
    the visits yield; it rests between two batches and not after the last
    one, so [(n - 1) / batchSize] times for [n > 0] candidates. *)
Theorem phase2_visits_every_candidate_once
    (visit : Z -> jstring -> option element)
    (businessUrls : list jstring) (batchSize : Z) (fuel : nat) :
  (0 < batchSize)%Z -> length businessUrls < fuel ->
  exists st,
    phase2 visit fuel businessUrls batchSize = Some st
    /\ visits_of (events st) = numbered businessUrls 0
    /\ rests_of (events st)
       = (length businessUrls - 1) / Z.to_nat batchSize.
Proof.
  intros Hb Hf; unfold phase2.
  destruct (@process_batches_ends visit businessUrls batchSize fuel 0
              (RunState [] []) Hb ltac:(lia) ltac:(lia)) as [st Hst].
  exists st; split; [exact Hst|].
  apply (@process_batches_spec visit businessUrls batchSize fuel 0) in Hst;
    [|exact Hb | lia].
  destruct Hst as [_ [H2 H3]]; simpl in H2, H3.
  rewrite H2, H3; split; [reflexivity | f_equal; lia].
Qed.

Lemma phase2_visits_every_candidate_once_witness :
  exists st,
    phase2 sample_visit 4 [url_a; url_b; url_c] 2 = Some st
    /\ visits_of (events st) = [(1%Z, url_a); (2%Z, url_b); (3%Z, url_c)]
    /\ rests_of (events st) = 1.
Proof.
  apply (@phase2_visits_every_candidate_once sample_visit
           [url_a; url_b; url_c] 2 4); simpl; lia.
Defined.

(** X12: with a batch size of 0 or less and a candidate to visit, the
    outer loop never ends: its index does not move past the start. *)
Theorem phase2_needs_positive_batch_size
    (visit : Z -> jstring -> option element)
    (businessUrls : list jstring) (batchSize : Z) :
  (batchSize <= 0)%Z -> businessUrls <> [] ->
  forall fuel, phase2 visit fuel businessUrls batchSize = None.
Proof.
  intros Hb Hu fuel; unfold phase2.
  apply process_batches_stuck; [exact Hb | lia | exact Hu].
Qed.

Lemma phase2_needs_positive_batch_size_witness :
  phase2 sample_visit 50 [url_a; url_b; url_c] 0 = None.
Proof.
  apply (@phase2_needs_positive_batch_size sample_visit
           [url_a; url_b; url_c] 0); [lia | discriminate].
Defined.

(** X13: the records collected do not depend on the batch size; there are
    at most as many as candidates; and each is what [extractDetails]
    returned on the page of one visited candidate, carries that
    candidate's address as its [url], and has a name that is neither empty
    nor ["Google Maps"]. A visit that throws only loses its own
    candidate: the records are the contributions of the candidates one
    after the other, each decided by its own visit alone, so a candidate
    whose visit succeeds on a page with a valid name is collected whatever
    happens at the others. *)
Theorem phase2_records
    (visit : Z -> jstring -> option element)
    (businessUrls : list jstring) (batchSize : Z) (fuel : nat)
    (st : run_state) :
  (0 < batchSize)%Z ->
  phase2 visit fuel businessUrls batchSize = Some st ->
  (forall batchSize' fuel' st',
     (0 < batchSize')%Z ->
     phase2 visit fuel' businessUrls batchSize' = Some st' ->
     extractedData st' = extractedData st)
  /\ length (extractedData st) <= length businessUrls
  /\ (forall r,
        In r (extractedData st) ->
        exists n u document,
          In (n, u) (numbered businessUrls 0)
          /\ visit n u = Some document
          /\ extractDetails document u = Some r
          /\ url r = JSString u
          /\ truthy (name r) = true
          /\ name r <> JSString (str "Google Maps"))
  /\ extractedData st
     = flat_map (contribution visit) (numbered businessUrls 0)
  /\ (forall n u document r,
        In (n, u) (numbered businessUrls 0) ->
        visit n u = Some document ->
        extractDetails document u = Some r ->
        truthy (name r) = true ->
        name r <> JSString (str "Google Maps") ->
        In r (extractedData st)).
Proof.
  intros Hb H; unfold phase2 in *.
  apply (@process_batches_spec visit businessUrls batchSize fuel 0) in H;
    [|exact Hb | lia].
  destruct H as [H1 _]; simpl in H1.
  assert (Hflat : extractedData st
                  = flat_map (contribution visit) (numbered businessUrls 0))
    by (rewrite H1; apply (collect_in_turn_flat visit businessUrls 0 [])).
  split; [|split; [|split; [|split; [exact Hflat|]]]]; cycle 3.
  { intros n u document r Hin Hv Hx Ht Hg; rewrite Hflat.
    apply in_flat_map; exists (n, u); split; [exact Hin|].
    unfold contribution; simpl fst; simpl snd; rewrite Hv, Hx.
    rewrite (collect_result_kept r Ht Hg); left; reflexivity. }
  - intros b' fuel' st' Hb' H'.
    apply (@process_batches_spec visit businessUrls b' fuel' 0) in H';
      [|exact Hb' | lia].
    destruct H' as [H1' _]; simpl in H1'; congruence.
  - rewrite H1; apply (collect_in_turn_length visit businessUrls 0 []).
  - intros r Hr; rewrite H1 in Hr.
    apply collect_in_turn_origin in Hr.
    destruct Hr as [[] | [n [u [d [Hin [Hv [Hx [Ht Hg]]]]]]]].
    exists n, u, d; repeat split; auto.
    apply extractDetails_Some in Hx; subst r; reflexivity.
Qed.

Lemma phase2_records_witness :
  (exists st,
     phase2 sample_visit 4 [url_a; url_b; url_c] 2 = Some st
     /\ length (extractedData st) <= 3
     /\ List.map url (extractedData st) = [JSString url_a])
  /\ (exists st r,
        phase2 sample_visit 4 [url_b; url_a; url_c] 2 = Some st
        /\ sample_visit 1 url_b = None
        /\ extractDetails acme_page url_a = Some r
        /\ In r (extractedData st)).
Proof.
  split.
  - eexists; split; [vm_compute; reflexivity|].
    split; [|reflexivity].
    apply (proj1 (proj2 (@phase2_records sample_visit [url_a; url_b; url_c] 2
                           4 _ ltac:(lia) ltac:(vm_compute; reflexivity)))).
  - eexists; eexists; split; [vm_compute; reflexivity|].
    split; [reflexivity|]; split; [reflexivity|].
    apply (proj2 (proj2 (proj2 (proj2
             (@phase2_records sample_visit [url_b; url_a; url_c] 2 4 _
                ltac:(lia) ltac:(vm_compute; reflexivity)))))
             2%Z url_a acme_page).
    + right; left; reflexivity.
    + reflexivity.
    + reflexivity.
    + reflexivity.
    + discriminate.
Defined.

(** ** The notification *)

(** X14: without both credentials no request is made. With them the status
    message is sent first; the files follow only if that request resolved,
    the table and then the report, each only if its file exists, and what
    becomes of the upload of the table does not matter to that of the
    report. No file is ever sent without credentials, without the message
    having gone through, or without existing. *)
Theorem sendTelegramReport_requests
    (token chat_id : jstring) (existsSync : jstring -> bool)
    (post : request -> bool) (count : nat) :
  (token = [] \/ chat_id = [] ->
   sendTelegramReport token chat_id existsSync post count = [])
  /\ (token <> [] -> chat_id <> [] ->
      sendTelegramReport token chat_id existsSync post count
      = SendMessage count
        :: (if post (SendMessage count)
            then (if existsSync outputFile
                  then [SendDocument outputFile (str "CSV Data")]
                  else [])
                 ++ (if existsSync pdfFile
                     then [SendDocument pdfFile (str "PDF Report")]
                     else [])
            else []))
  /\ (forall path caption,
        In (SendDocument path caption)
          (sendTelegramReport token chat_id existsSync post count) ->
        token <> [] /\ chat_id <> []
        /\ post (SendMessage count) = true /\ existsSync path = true).
Proof.
  assert (H2 : token <> [] -> chat_id <> [] ->
               sendTelegramReport token chat_id existsSync post count
               = SendMessage count
                 :: (if post (SendMessage count)
                     then (if existsSync outputFile
                           then [SendDocument outputFile (str "CSV Data")]
                           else [])
                          ++ (if existsSync pdfFile
                              then [SendDocument pdfFile (str "PDF Report")]
                              else [])
                     else [])).
  { intros Ht Hc; unfold sendTelegramReport, sendTelegramFile.
    destruct token as [|t token]; [congruence|].
    destruct chat_id as [|c chat_id]; [congruence|].
    destruct (post (SendMessage count)), (existsSync outputFile),
      (existsSync pdfFile); reflexivity. }
  split; [|split; [exact H2|]].
  - unfold sendTelegramReport.
    intros [-> | ->]; [reflexivity | destruct token; reflexivity].
  - intros path caption Hin.
    destruct token as [|t token]; [destruct Hin|].
    destruct chat_id as [|c chat_id]; [destruct Hin|].
    rewrite H2 in Hin by discriminate.
    split; [discriminate|]; split; [discriminate|].
    destruct Hin as [Hin | Hin]; [discriminate|].
    destruct (post (SendMessage count)); [|destruct Hin].
    split; [reflexivity|].
    apply in_app_or in Hin.
    destruct (existsSync outputFile) eqn:E1, (existsSync pdfFile) eqn:E2;
      destruct Hin as [Hin | Hin]; simpl in Hin;
      try (destruct Hin as [Hin | []]; inversion Hin; subst; assumption);
      destruct Hin.
Qed.

Lemma sendTelegramReport_requests_witness :
  sendTelegramReport (str "123:abc") [] (fun _ => true) (fun _ => true) 7 = []
  /\ sendTelegramReport (str "123:abc") (str "42")
       (fun p => jstring_eqb p outputFile) (fun _ => true) 7
     = [SendMessage 7; SendDocument outputFile (str "CSV Data")].
Proof.
  split.
  - apply (proj1 (sendTelegramReport_requests (str "123:abc") []
                    (fun _ => true) (fun _ => true) 7)).
    right; reflexivity.
  - apply (proj1 (proj2 (sendTelegramReport_requests (str "123:abc")
                           (str "42") (fun p => jstring_eqb p outputFile)
                           (fun _ => true) 7))); discriminate.
Defined.

(** ** The report *)

Lemma slice_first_hundred (A : Type) (l : list A) :
  slice l 0 100 = firstn 100 l.
Proof.
  rewrite slice_from_start, relative_index_nonneg by lia.
  destruct (Nat.le_gt_cases (Z.to_nat 100) (length l)) as [H | H].
  - rewrite Nat.min_l by exact H; reflexivity.
  - rewrite Nat.min_r by lia.
    rewrite !firstn_all2; [reflexivity | | ]; lia.
Qed.

(** X15: the report depends on the query and on the name, phone, address
    and rating of the first 100 records only: two result lists that agree
    on these give the same page, so records from the 101st on and the
    website, reviews and address of the page of every record are never
    shown. *)
Theorem report_shows_first_hundred
    (number_to_string : Z -> jstring) (searchQuery : jstring)
    (data data' : list BusinessRecord) :
  List.map shown (firstn 100 data) = List.map shown (firstn 100 data') ->
  htmlContent number_to_string searchQuery data
  = htmlContent number_to_string searchQuery data'.
Proof.
  intros H; unfold htmlContent; do 25 f_equal.
  unfold report_rows; rewrite !slice_first_hundred; f_equal.
  assert (Hrow : forall l,
             List.map (report_row number_to_string) l
             = List.map
                 (fun t : jsval * jsval * jsval * jsval =>
                    let '(n, p, a, r) := t in
                    nl ++ str "                <tr><td>"
                    ++ ToString number_to_string n
                    ++ str "</td><td>" ++ ToString number_to_string p
                    ++ str "</td><td>" ++ ToString number_to_string a
                    ++ str "</td><td>" ++ ToString number_to_string r
                    ++ str "</td></tr>")
                 (List.map shown l)).
  { intros l; rewrite map_map; apply map_ext; intros d; reflexivity. }
  rewrite !Hrow, H; reflexivity.
Qed.

Lemma report_shows_first_hundred_witness :
  htmlContent (fun _ => []) (str "Food shop in Agra")
    [record_named (JSString (str "Acme Plumbing"))]
  = htmlContent (fun _ => []) (str "Food shop in Agra")
      [{| name := JSString (str "Acme Plumbing");
          phone := JSString NA; address := JSString NA;
          website := JSString (str "https://acme.example");
          rating := JSString NA; reviews := JSString (str "12");
          url := JSString url_a |}].
Proof.
  apply report_shows_first_hundred; reflexivity.
Defined.
